(** * Force-feedback rumble simulation of the virtual joypad
    (src/uinput/joypad_utils.hpp)

    A shallow embedding of [simulate_rumble], [create_rumble_effect] and the
    polling loop of [event_listener], with the properties of the effect
    lifecycle and of the envelope simulation proved on it.

    Conventions of the embedding.
    - Integers of the C++ code are [Z]. A value stored in a [std::uint32_t]
      goes through [u32] (reduction modulo 2^32). The 64-bit signed
      intermediate values ([std::chrono] tick counts and the products built
      from them) are left unreduced: signed overflow would be undefined
      behaviour and [phase_operands_fit_int64] shows it is out of reach.
    - A [steady_clock::time_point] is its tick count in nanoseconds;
      [std::chrono::milliseconds] is a count of milliseconds.
    - An integer division by zero makes the computation undefined: the
      functions that divide return [option], [None] standing for it.
    - [state->on_rumble] is an optional callback owned by the caller; the
      embedding records the calls made to it, in order, as the pairs of
      arguments that were passed.
    - Names are those of the source, but for [effect_length] (the field
      [length]), [start_weak] to [end_strong] (the fields [start.weak] to
      [end.strong]), [ff_id] (the field [id] of [ff_effect]) and
      [replay_length], [replay_delay] (the fields of [ff_replay]). *)

From Stdlib Require Import ZArith Lia.
From stdpp Require Import base option list gmap strings.

Local Open Scope Z_scope.

(** ** Machine integers and clock *)

Definition MAX_GAIN : Z := 0xFFFF.

(** Conversion to [std::uint32_t]. *)
Definition u32 (x : Z) : Z := x mod 2 ^ 32.

(** [std::clamp(v, lo, hi)]. *)
Definition clamp (v lo hi : Z) : Z :=
  if v <? lo then lo else if hi <? v then hi else v.

(** Integer division of the C++ code: truncating, undefined on a zero
    divisor. *)
Definition checked_quot (a b : Z) : option Z :=
  if b =? 0 then None else Some (a ÷ b).

Definition time_point : Type := Z.

(** Ticks of [steady_clock] (nanoseconds) in [n] milliseconds: the implicit
    conversion in [now + delay]. *)
Definition ms (n : Z) : Z := n * 1000000.

(** [std::chrono::duration_cast<std::chrono::milliseconds>]. *)
Definition duration_cast_ms (ticks : Z) : Z := ticks ÷ 1000000.

(** ** Kernel force-feedback structures (linux/input.h)

    The fields the listener reads. Levels of constant and ramp effects and
    the magnitude of a periodic effect are [__s16]; rumble magnitudes, the
    envelope and the replay fields are [__u16]. *)

Record ff_envelope := {
  attack_length : Z;
  attack_level : Z;
  fade_length : Z;
  fade_level : Z
}.

Record ff_replay := {
  replay_length : Z;
  replay_delay : Z
}.

(** [ff_effect::type] together with the member of the union [u] it
    selects. *)
Inductive ff_union :=
| FF_CONSTANT (level : Z) (env : ff_envelope)
| FF_PERIODIC (magnitude : Z) (env : ff_envelope)
| FF_RAMP (start_level end_level : Z) (env : ff_envelope)
| FF_RUMBLE (strong_magnitude weak_magnitude : Z)
| FF_OTHER (type : Z).

Record ff_effect := {
  ff_id : Z;
  replay : ff_replay;
  u : ff_union
}.

Definition is_u16 (x : Z) : Prop := 0 <= x <= 65535.

Definition envelope_in_range (env : ff_envelope) : Prop :=
  is_u16 (attack_length env) /\ is_u16 (attack_level env) /\
  is_u16 (fade_length env) /\ is_u16 (fade_level env).

(** ** Active effects *)

Record ActiveRumbleEffect := {
  effect_id : Z;
  start_point : time_point;
  end_point : time_point;
  effect_length : Z;
  envelope : ff_envelope;
  start_weak : Z;
  start_strong : Z;
  end_weak : Z;
  end_strong : Z;
  gain : Z;
  previous : Z * Z
}.

Definition no_envelope : ff_envelope :=
  {| attack_length := 0; attack_level := 0; fade_length := 0; fade_level := 0 |}.

Definition set_previous (effect : ActiveRumbleEffect) (p : Z * Z) : ActiveRumbleEffect :=
  {| effect_id := effect_id effect;
     start_point := start_point effect;
     end_point := end_point effect;
     effect_length := effect_length effect;
     envelope := envelope effect;
     start_weak := start_weak effect;
     start_strong := start_strong effect;
     end_weak := end_weak effect;
     end_strong := end_strong effect;
     gain := gain effect;
     previous := p |}.

(** Assignment of the four magnitudes and of the envelope, as one case of
    the [switch] of [create_rumble_effect] does. *)
Definition set_shape (effect : ActiveRumbleEffect)
    (sw ss ew es : Z) (env : ff_envelope) : ActiveRumbleEffect :=
  {| effect_id := effect_id effect;
     start_point := start_point effect;
     end_point := end_point effect;
     effect_length := effect_length effect;
     envelope := env;
     start_weak := u32 sw;
     start_strong := u32 ss;
     end_weak := u32 ew;
     end_strong := u32 es;
     gain := gain effect;
     previous := previous effect |}.

(** ** The envelope simulator *)

Definition rumble_magnitude (time_left start end_ length : Z) : option Z :=
  let rel := u32 (end_ - start) in
  q ← checked_quot (rel * time_left) length;
  Some (u32 (start + q)).

(** Lines 77 to 95 of [simulate_rumble]: the value of both channels before
    the gain is applied. *)
Definition rumble_envelope (effect : ActiveRumbleEffect) (now : time_point)
    : option (Z * Z) :=
  let time_left := duration_cast_ms (end_point effect - now) in
  let t := effect_length effect - time_left in
  let weak := 0 in
  let strong := 0 in
  let env := envelope effect in
  if t <? attack_length env then
    w ← checked_quot (attack_level env * t + weak * (attack_length env - t))
                     (attack_length env);
    s ← checked_quot (attack_level env * t + strong * (attack_length env - t))
                     (attack_length env);
    Some (u32 w, u32 s)
  else if time_left <? fade_length env then
    let dt := (t - effect_length effect) + fade_length env in
    w ← checked_quot (fade_level env * dt + weak * (fade_length env - dt))
                     (fade_length env);
    s ← checked_quot (fade_level env * dt + strong * (fade_length env - dt))
                     (fade_length env);
    Some (u32 w, u32 s)
  else
    w ← rumble_magnitude t (start_weak effect) (end_weak effect) (effect_length effect);
    s ← rumble_magnitude t (start_strong effect) (end_strong effect) (effect_length effect);
    Some (w, s).

(** [value * effect.gain / MAX_GAIN] on a [std::uint32_t] value: the [int]
    gain is converted to unsigned and the product wraps. *)
Definition apply_gain (value g : Z) : Z :=
  u32 (u32 (value * u32 g) ÷ MAX_GAIN).

Definition simulate_rumble (effect : ActiveRumbleEffect) (now : time_point)
    : option (Z * Z) :=
  if (end_point effect <? now) || (now <? start_point effect) then Some (0, 0)
  else
    p ← rumble_envelope effect now;
    Some (apply_gain (fst p) (gain effect), apply_gain (snd p) (gain effect)).

(** [now] is the reading of [steady_clock::now()] taken inside the
    function. *)
Definition create_rumble_effect (id effect_gain : Z) (effect : ff_effect)
    (now : time_point) : ActiveRumbleEffect :=
  let delay := clamp (replay_delay (replay effect)) 0 32767 in
  let length := clamp (replay_length (replay effect)) 0 32767 in
  let r_effect :=
    {| effect_id := id;
       start_point := now + ms delay;
       end_point := now + ms delay + ms length;
       effect_length := length;
       envelope := no_envelope;
       start_weak := 0;
       start_strong := 0;
       end_weak := 0;
       end_strong := 0;
       gain := effect_gain;
       previous := (0, 0) |} in
  match u effect with
  | FF_CONSTANT level env => set_shape r_effect level level level level env
  | FF_PERIODIC magnitude env =>
      set_shape r_effect magnitude magnitude magnitude magnitude env
  | FF_RAMP start_level end_level env =>
      set_shape r_effect start_level start_level end_level end_level env
  | FF_RUMBLE strong_magnitude weak_magnitude =>
      set_shape r_effect weak_magnitude strong_magnitude
                weak_magnitude strong_magnitude (envelope r_effect)
  | FF_OTHER _ => r_effect
  end.

(** ** The polling loop of [event_listener] *)

(** Event types and codes (linux/input.h, linux/uinput.h). *)
Definition EV_LED : Z := 0x11.
Definition EV_FF : Z := 0x15.
Definition EV_UINPUT : Z := 0x0101.
Definition UI_FF_UPLOAD : Z := 1.
Definition UI_FF_ERASE : Z := 2.
Definition FF_GAIN : Z := 0x60.

Record input_event := {
  type : Z;
  code : Z;
  value : Z
}.

(** What the kernel answers to the two [ioctl] requests that retrieve the
    payload of a pending request, by request id. *)
Record uinput_kernel := {
  UI_BEGIN_FF_UPLOAD : Z -> ff_effect;
  UI_BEGIN_FF_ERASE : Z -> Z
}.

(** One call of [state->on_rumble], as (first argument, second argument). *)
Definition rumble_call : Type := Z * Z.

(** The three locals of [event_listener] that live across iterations. *)
Record listener := {
  ff_effects : gmap Z ff_effect;
  current_gain : Z;
  active_effects : list ActiveRumbleEffect
}.

Definition initial_listener : listener :=
  {| ff_effects := ∅; current_gain := MAX_GAIN; active_effects := [] |}.

Definition set_active (st : listener) (active : list ActiveRumbleEffect) : listener :=
  {| ff_effects := ff_effects st;
     current_gain := current_gain st;
     active_effects := active |}.

(** The lambda [remove_effects]: [std::remove_if] applies the predicate once
    to every element, in order, and the predicate calls [on_rumble(0, 0)] for
    an element it removes. [on_rumble] tells whether the optional callback is
    present. *)
Fixpoint remove_effects (on_rumble : bool) (filter_fn : ActiveRumbleEffect -> bool)
    (active : list ActiveRumbleEffect) : list ActiveRumbleEffect * list rumble_call :=
  match active with
  | [] => ([], [])
  | effect :: rest =>
      let to_be_removed := filter_fn effect in
      let calls := if to_be_removed && on_rumble then [(0, 0)] else [] in
      let r := remove_effects on_rumble filter_fn rest in
      (if to_be_removed then fst r else effect :: fst r, calls ++ snd r)
  end.

Definition has_effect_id (id : Z) (effect : ActiveRumbleEffect) : bool :=
  effect_id effect =? id.

Definition has_ended (now : time_point) (effect : ActiveRumbleEffect) : bool :=
  end_point effect <=? now.

(** The body of [for (auto ev : events)]. [clock] is what
    [steady_clock::now()] returns if this event activates an effect. *)
Definition handle_event (kernel : uinput_kernel) (on_rumble : bool)
    (clock : time_point) (ev : input_event) (st : listener)
    : listener * list rumble_call :=
  if (type ev =? EV_UINPUT) && (code ev =? UI_FF_UPLOAD) then
    let effect := UI_BEGIN_FF_UPLOAD kernel (value ev) in
    ({| ff_effects := <[ff_id effect := effect]> (ff_effects st);
        current_gain := current_gain st;
        active_effects := active_effects st |}, [])
  else if (type ev =? EV_UINPUT) && (code ev =? UI_FF_ERASE) then
    let id := UI_BEGIN_FF_ERASE kernel (value ev) in
    let r := remove_effects on_rumble (has_effect_id id) (active_effects st) in
    (set_active st (fst r), snd r)
  else if (type ev =? EV_FF) && (code ev =? FF_GAIN) then
    ({| ff_effects := ff_effects st;
        current_gain := clamp (value ev) 0 MAX_GAIN;
        active_effects := active_effects st |}, [])
  else if type ev =? EV_FF then
    let id := code ev in
    if negb (value ev =? 0) then
      match ff_effects st !! id with
      | Some effect =>
          (set_active st (active_effects st ++
                          [create_rumble_effect id (current_gain st) effect clock]), [])
      | None => (st, [])
      end
    else
      let r := remove_effects on_rumble (has_effect_id id) (active_effects st) in
      (set_active st (fst r), snd r)
  else if type ev =? EV_LED then (st, [])
  else (st, []).

Fixpoint handle_events (kernel : uinput_kernel) (on_rumble : bool)
    (events : list (time_point * input_event)) (st : listener)
    : listener * list rumble_call :=
  match events with
  | [] => (st, [])
  | (clock, ev) :: rest =>
      let r := handle_event kernel on_rumble clock ev st in
      let r' := handle_events kernel on_rumble rest (fst r) in
      (fst r', snd r ++ snd r')
  end.

(** The body of [for (auto effect : active_effects)] on its loop variable:
    the variable after the iteration, and the calls made. *)
Definition report_rumble (on_rumble : bool) (now : time_point)
    (effect : ActiveRumbleEffect) : option (ActiveRumbleEffect * list rumble_call) :=
  p ← simulate_rumble effect now;
  let weak := fst p in
  let strong := snd p in
  if negb (fst (previous effect) =? weak) || negb (snd (previous effect) =? strong)
  then Some (set_previous effect (weak, strong),
             if on_rumble then [(strong, weak)] else [])
  else Some (effect, []).

(** The loop itself. [auto effect] declares the loop variable by value: each
    iteration works on a copy of the stored element, and the copy, with what
    was assigned to its [previous], is gone when the iteration ends. The
    vector is not written. *)
Fixpoint simulate_active (on_rumble : bool) (now : time_point)
    (active : list ActiveRumbleEffect) : option (list rumble_call) :=
  match active with
  | [] => Some []
  | stored :: rest =>
      r ← report_rumble on_rumble now stored;
      more ← simulate_active on_rumble now rest;
      Some (snd r ++ more)
  end.

(** One iteration of [while (!state->stop_listening_events)]: the fetched
    events, each with the clock reading at its handling, then the reading
    [now] taken after them. *)
Definition tick (kernel : uinput_kernel) (on_rumble : bool)
    (events : list (time_point * input_event)) (now : time_point)
    (st : listener) : option (listener * list rumble_call) :=
  let r := handle_events kernel on_rumble events st in
  let swept := remove_effects on_rumble (has_ended now) (active_effects (fst r)) in
  calls ← simulate_active on_rumble now (fst swept);
  Some (set_active (fst r) (fst swept), snd r ++ snd swept ++ calls).

(** A run of the loop: the ticks in order, the calls concatenated. *)
Fixpoint run (kernel : uinput_kernel) (on_rumble : bool)
    (ticks : list (list (time_point * input_event) * time_point))
    (st : listener) : option (listener * list rumble_call) :=
  match ticks with
  | [] => Some (st, [])
  | (events, now) :: rest =>
      r ← tick kernel on_rumble events now st;
      r' ← run kernel on_rumble rest (fst r);
      Some (fst r', snd r ++ snd r')
  end.

(** ** Device nodes of a joypad *)

(** One entry of the directory iteration over the sysfs path: whether it is
    a directory, and the file name of its path. *)
Record directory_entry := {
  is_directory : bool;
  filename : string
}.

(** What the iteration over the sysfs path comes to: the entries it yields,
    or the [std::filesystem::filesystem_error] thrown when the path cannot be
    opened or an entry cannot be read (constructor or increment of the
    [directory_iterator], [is_directory]). *)
Inductive directory_iteration :=
| listed (entries : list directory_entry)
| filesystem_error.

(** [dev_path] is what [libevdev_uinput_get_devnode] returns and [sys_path]
    what the iteration comes to under what [libevdev_uinput_get_syspath]
    returns, [None] for a null pointer. [rfind("js", 0) == 0] tests for the
    prefix "js". Nothing in the function catches: the result is [None] when
    the exception leaves it. *)
Definition get_child_dev_nodes (dev_path : option string)
    (sys_path : option directory_iteration) : option (list string) :=
  let result := match dev_path with Some path => [path] | None => [] end in
  match sys_path with
  | Some (listed entries) =>
      Some (fold_left
              (fun result entry =>
                 if is_directory entry && String.prefix "js" (filename entry)
                 then result ++ [String.append "/dev/input/" (filename entry)]
                 else result)
              entries result)
  | Some filesystem_error => None
  | None => Some result
  end.

(** ** Vocabulary of the properties *)

(** The two durations [simulate_rumble] computes from [now]. *)
Definition time_left_at (effect : ActiveRumbleEffect) (now : time_point) : Z :=
  duration_cast_ms (end_point effect - now).

Definition elapsed_at (effect : ActiveRumbleEffect) (now : time_point) : Z :=
  effect_length effect - time_left_at effect now.

(** [now] passes the test at the head of [simulate_rumble]. *)
Definition in_window (effect : ActiveRumbleEffect) (now : time_point) : Prop :=
  start_point effect <= now <= end_point effect.

Inductive phase := Attack | Fade | Sustain.

(** The branch of the [if] / [else if] / [else] chain taken at [now]. *)
Definition phase_at (effect : ActiveRumbleEffect) (now : time_point) : phase :=
  if elapsed_at effect now <? attack_length (envelope effect) then Attack
  else if time_left_at effect now <? fade_length (envelope effect) then Fade
  else Sustain.

(** The divisor of the branch taken at [now]. *)
Definition divisor_at (effect : ActiveRumbleEffect) (now : time_point) : Z :=
  match phase_at effect now with
  | Attack => attack_length (envelope effect)
  | Fade => fade_length (envelope effect)
  | Sustain => effect_length effect
  end.

(** What [create_rumble_effect] guarantees about the timing fields. *)
Definition well_timed (effect : ActiveRumbleEffect) : Prop :=
  0 <= effect_length effect <= 32767 /\
  end_point effect = start_point effect + ms (effect_length effect).

(** The sustain formula as the specification words it: interpolation on the
    remaining time. *)
Definition sustain_by_time_left (start end_ time_left length : Z) : Z :=
  start + (end_ - start) * time_left / length.

(** The sustain formula on the elapsed time [t], with the reductions of the
    unsigned 32-bit operands. *)
Definition sustain_by_elapsed (start end_ t length : Z) : Z :=
  u32 (start + u32 (end_ - start) * t ÷ length).


(** [v] is [level * 0.5] up to the rounding of an integer division. *)
Definition half_within_rounding (v level : Z) : Prop :=
  Z.abs (2 * v - level) <= 1.


(** ** Sample descriptors *)

Definition one_second : ff_replay := {| replay_length := 1000; replay_delay := 0 |}.

(** A ramp from 0 up to 1000 over one second. *)
Definition ramp_up : ff_effect :=
  {| ff_id := 1; replay := one_second; u := FF_RAMP 0 1000 no_envelope |}.

(** The rumble of the specification's example: weak 100, strong 200. *)
Definition rumble_100_200 : ff_effect :=
  {| ff_id := 1; replay := one_second; u := FF_RUMBLE 200 100 |}.

(** A rumble whose replay length is zero. *)
Definition rumble_zero_length : ff_effect :=
  {| ff_id := 1;
     replay := {| replay_length := 0; replay_delay := 0 |};
     u := FF_RUMBLE 200 100 |}.

(** A constant effect of level 1000 with an attack of [a] milliseconds
    towards level 30000. *)
Definition constant_with_attack (a : Z) : ff_effect :=
  {| ff_id := 1;
     replay := one_second;
     u := FF_CONSTANT 1000 {| attack_length := a; attack_level := 30000;
                              fade_length := 0; fade_level := 0 |} |}.

(** A constant effect of level -1. *)
Definition constant_minus_one : ff_effect :=
  {| ff_id := 1; replay := one_second; u := FF_CONSTANT (-1) no_envelope |}.

(** A constant effect of level 1000 with a fade of [f] milliseconds and
    fade level 30000. *)
Definition constant_with_fade (f : Z) : ff_effect :=
  {| ff_id := 1;
     replay := one_second;
     u := FF_CONSTANT 1000 {| attack_length := 0; attack_level := 0;
                              fade_length := f; fade_level := 30000 |} |}.

(** A ramp from 1000 down to 0 over one second. *)
Definition ramp_down : ff_effect :=
  {| ff_id := 1; replay := one_second; u := FF_RAMP 1000 0 no_envelope |}.

(** The rumble of weak 100 and strong 200, delayed by half a second. *)
Definition rumble_delayed : ff_effect :=
  {| ff_id := 1;
     replay := {| replay_length := 1000; replay_delay := 500 |};
     u := FF_RUMBLE 200 100 |}.

(** A spring effect (type [FF_SPRING], 0x53), for which the [switch] has
    no case. *)
Definition spring : ff_effect :=
  {| ff_id := 1; replay := one_second; u := FF_OTHER 0x53 |}.

(** A periodic effect of magnitude 20000 without envelope. *)
Definition periodic_20000 : ff_effect :=
  {| ff_id := 1; replay := one_second; u := FF_PERIODIC 20000 no_envelope |}.

(** ** Sample events and kernel *)

(** The four kinds of event the listener acts on. *)
Definition upload_event (request_id : Z) : input_event :=
  {| type := EV_UINPUT; code := UI_FF_UPLOAD; value := request_id |}.

Definition erase_event (request_id : Z) : input_event :=
  {| type := EV_UINPUT; code := UI_FF_ERASE; value := request_id |}.

Definition gain_event (v : Z) : input_event :=
  {| type := EV_FF; code := FF_GAIN; value := v |}.

Definition play_event (id v : Z) : input_event :=
  {| type := EV_FF; code := id; value := v |}.

(** A kernel whose pending upload is [rumble_100_200] (effect id 1) and
    whose pending erase targets effect id 1. *)
Definition sample_kernel : uinput_kernel :=
  {| UI_BEGIN_FF_UPLOAD := fun _ => rumble_100_200;
     UI_BEGIN_FF_ERASE := fun _ => 1 |}.

(** A listener holding [rumble_100_200] with two instances of it running,
    both activated at time 0. *)
Definition two_running : listener :=
  {| ff_effects := {[ 1 := rumble_100_200 ]};
     current_gain := MAX_GAIN;
     active_effects := [create_rumble_effect 1 MAX_GAIN rumble_100_200 0;
                        create_rumble_effect 1 MAX_GAIN rumble_100_200 0] |}.

(** A listener with one delayed instance and one of gain 0, both activated
    at time 0. *)
Definition two_silent : listener :=
  {| ff_effects := {[ 1 := rumble_delayed ]};
     current_gain := MAX_GAIN;
     active_effects := [create_rumble_effect 1 MAX_GAIN rumble_delayed 0;
                        create_rumble_effect 1 0 rumble_100_200 0] |}.

(** A sysfs directory with a js node, an event node and a regular file
    whose name starts with js. *)
Definition sample_sysfs : list directory_entry :=
  [ {| is_directory := true; filename := "event7" |};
    {| is_directory := true; filename := "js0" |};
    {| is_directory := false; filename := "jsfile" |} ].

(** The instances the listener can hold: those [create_rumble_effect]
    built. *)
Definition constructed (effect : ActiveRumbleEffect) : Prop :=
  exists id g eff now0, effect = create_rumble_effect id g eff now0.

(** Every running instance was constructed, still has its initial
    [previous], and its id has a descriptor in the store. *)
Definition listener_inv (st : listener) : Prop :=
  Forall (fun effect => constructed effect /\ previous effect = (0, 0) /\
                        is_Some (ff_effects st !! effect_id effect))
         (active_effects st).

(** The gains stay in the range the clamp of a gain event produces. *)
Definition gains_in_range (st : listener) : Prop :=
  0 <= current_gain st <= MAX_GAIN /\
  Forall (fun effect => 0 <= gain effect <= MAX_GAIN) (active_effects st).

(** An instance that reports nothing at [now]: still running, and either not
    started yet or with a captured gain of 0. *)
Definition silent_at (now : time_point) (effect : ActiveRumbleEffect) : Prop :=
  constructed effect /\ previous effect = (0, 0) /\ now < end_point effect /\
  (now < start_point effect \/ gain effect = 0).

(** ** Arithmetic of the machine integers *)

Lemma u32_small (x : Z) : 0 <= x < 2 ^ 32 -> u32 x = x.
Proof. intros H. unfold u32. now apply Z.mod_small. Qed.

Lemma u32_range (x : Z) : 0 <= u32 x < 2 ^ 32.
Proof. unfold u32. apply Z.mod_pos_bound. lia. Qed.


Lemma clamp_bounds (v lo hi : Z) : lo <= hi -> lo <= clamp v lo hi <= hi.
Proof.
  intros H. unfold clamp.
  destruct (Z.ltb_spec v lo); [lia |].
  destruct (Z.ltb_spec hi v); lia.
Qed.

Lemma clamp_id (v lo hi : Z) : lo <= v <= hi -> clamp v lo hi = v.
Proof.
  intros H. unfold clamp.
  destruct (Z.ltb_spec v lo); [lia |].
  destruct (Z.ltb_spec hi v); lia.
Qed.

Lemma checked_quot_nonzero (a b : Z) : b <> 0 -> checked_quot a b = Some (a ÷ b).
Proof.
  intros H. unfold checked_quot.
  destruct (Z.eqb_spec b 0); [contradiction | reflexivity].
Qed.

Lemma checked_quot_zero (a : Z) : checked_quot a 0 = None.
Proof. reflexivity. Qed.

Lemma duration_cast_ms_exact (n : Z) : duration_cast_ms (ms n) = n.
Proof. unfold duration_cast_ms, ms. apply Z.quot_mul. lia. Qed.

Lemma duration_cast_ms_bounds (d n : Z) :
  0 <= d <= ms n -> 0 <= duration_cast_ms d <= n.
Proof.
  unfold duration_cast_ms, ms. intros [Hlo Hhi].
  rewrite Z.quot_div_nonneg by lia. split.
  - apply Z.div_pos; lia.
  - apply Z.div_le_upper_bound; lia.
Qed.

Lemma apply_gain_unfold (v g : Z) :
  apply_gain v g = ((v * g) mod 2 ^ 32) / 65535.
Proof.
  unfold apply_gain, u32, MAX_GAIN.
  rewrite Z.mul_mod_idemp_r by lia.
  assert (H := Z.mod_pos_bound (v * g) (2 ^ 32) ltac:(lia)).
  rewrite Z.quot_div_nonneg by lia.
  apply Z.mod_small. split.
  - apply Z.div_pos; lia.
  - apply Z.div_lt_upper_bound; lia.
Qed.

(** For a 16-bit value and a clamped gain the product does not wrap. *)
Lemma apply_gain_no_wrap (v g : Z) :
  is_u16 v -> 0 <= g <= MAX_GAIN -> apply_gain v g = v * g / 65535.
Proof.
  unfold is_u16, MAX_GAIN. intros Hv Hg. rewrite apply_gain_unfold.
  rewrite Z.mod_small; [reflexivity | nia].
Qed.

Lemma apply_gain_max (v : Z) : is_u16 v -> apply_gain v MAX_GAIN = v.
Proof.
  intros Hv. rewrite apply_gain_no_wrap; [| assumption | unfold MAX_GAIN; lia].
  unfold MAX_GAIN. apply Z.div_mul. lia.
Qed.

Lemma apply_gain_zero (v : Z) : apply_gain v 0 = 0.
Proof. rewrite apply_gain_unfold. rewrite Z.mul_0_r. reflexivity. Qed.

(** ** Timing of a constructed instance *)

Lemma create_well_timed (id g : Z) (eff : ff_effect) (now0 : time_point) :
  well_timed (create_rumble_effect id g eff now0).
Proof.
  assert (H := clamp_bounds (replay_length (replay eff)) 0 32767 ltac:(lia)).
  unfold well_timed, create_rumble_effect.
  destruct (u eff); simpl; (split; [exact H | lia]).
Qed.

Lemma create_effect_id (id g : Z) (eff : ff_effect) (now0 : time_point) :
  effect_id (create_rumble_effect id g eff now0) = id.
Proof. unfold create_rumble_effect. destruct (u eff); reflexivity. Qed.

Lemma create_gain (id g : Z) (eff : ff_effect) (now0 : time_point) :
  gain (create_rumble_effect id g eff now0) = g.
Proof. unfold create_rumble_effect. destruct (u eff); reflexivity. Qed.

Lemma create_previous (id g : Z) (eff : ff_effect) (now0 : time_point) :
  previous (create_rumble_effect id g eff now0) = (0, 0).
Proof. unfold create_rumble_effect. destruct (u eff); reflexivity. Qed.

(** Everything but the gain is independent of the gain passed in. *)
Lemma create_gain_only (id g g' : Z) (eff : ff_effect) (now0 now : time_point) :
  rumble_envelope (create_rumble_effect id g eff now0) now =
  rumble_envelope (create_rumble_effect id g' eff now0) now /\
  start_point (create_rumble_effect id g eff now0) =
  start_point (create_rumble_effect id g' eff now0) /\
  end_point (create_rumble_effect id g eff now0) =
  end_point (create_rumble_effect id g' eff now0) /\
  effect_length (create_rumble_effect id g eff now0) =
  effect_length (create_rumble_effect id g' eff now0).
Proof. unfold create_rumble_effect. destruct (u eff); repeat split; reflexivity. Qed.

Section InWindow.
Variable effect : ActiveRumbleEffect.
Variable now : time_point.
Hypothesis Htimed : well_timed effect.
Hypothesis Hwin : in_window effect now.

Lemma time_left_bounds : 0 <= time_left_at effect now <= effect_length effect.
  Proof.
    destruct Htimed as [_ Hend]. destruct Hwin as [Hlo Hhi].
    unfold time_left_at. apply duration_cast_ms_bounds. lia.
  Qed.

Lemma elapsed_bounds : 0 <= elapsed_at effect now <= effect_length effect.
  Proof. assert (H := time_left_bounds). unfold elapsed_at. lia. Qed.

  (** Before the end point at least one whole millisecond separates the two
      ends of the window. *)
Lemma length_positive_before_end : now < end_point effect -> 0 < effect_length effect.
  Proof.
    destruct Htimed as [Hlen Hend]. destruct Hwin as [Hlo _]. unfold ms in Hend. lia.
  Qed.

  (** The divisor of the branch taken is positive, but for the sustain branch
      of an instance of length zero. *)
Lemma divisor_positive :
    0 < effect_length effect \/ phase_at effect now <> Sustain ->
    0 < divisor_at effect now.
  Proof.
    assert (Ht := elapsed_bounds). assert (Hl := time_left_bounds).
    unfold divisor_at, phase_at.
    destruct (Z.ltb_spec (elapsed_at effect now) (attack_length (envelope effect))).
    { intros _. lia. }
    destruct (Z.ltb_spec (time_left_at effect now) (fade_length (envelope effect))).
    { intros _. lia. }
    intros [H1 | H1]; [exact H1 | contradiction].
  Qed.
End InWindow.

(** [rumble_envelope] is defined exactly when the divisor of the branch it
    takes is not zero. *)
Lemma rumble_envelope_defined (effect : ActiveRumbleEffect) (now : time_point) :
  divisor_at effect now <> 0 -> is_Some (rumble_envelope effect now).
Proof.
  unfold divisor_at, phase_at, rumble_envelope, rumble_magnitude, elapsed_at, time_left_at.
  destruct (_ <? attack_length _).
  { intros H. rewrite !checked_quot_nonzero by exact H. simpl. eauto. }
  destruct (_ <? fade_length _).
  { intros H. rewrite !checked_quot_nonzero by exact H. simpl. eauto. }
  intros H. rewrite !checked_quot_nonzero by exact H. simpl. eauto.
Qed.

Lemma rumble_envelope_undefined (effect : ActiveRumbleEffect) (now : time_point) :
  divisor_at effect now = 0 -> rumble_envelope effect now = None.
Proof.
  unfold divisor_at, phase_at, rumble_envelope, rumble_magnitude, elapsed_at, time_left_at.
  destruct (_ <? attack_length _).
  { intros ->. reflexivity. }
  destruct (_ <? fade_length _).
  { intros ->. reflexivity. }
  intros ->. reflexivity.
Qed.

Lemma simulate_rumble_outside (effect : ActiveRumbleEffect) (now : time_point) :
  ~ in_window effect now -> simulate_rumble effect now = Some (0, 0).
Proof.
  unfold in_window, simulate_rumble. intros H.
  destruct (Z.ltb_spec (end_point effect) now); [reflexivity |].
  destruct (Z.ltb_spec now (start_point effect)); [reflexivity | lia].
Qed.

Lemma simulate_rumble_inside (effect : ActiveRumbleEffect) (now : time_point) :
  in_window effect now ->
  simulate_rumble effect now =
  (p ← rumble_envelope effect now;
   Some (apply_gain (fst p) (gain effect), apply_gain (snd p) (gain effect))).
Proof.
  unfold in_window, simulate_rumble. intros H.
  destruct (Z.ltb_spec (end_point effect) now); [lia |].
  destruct (Z.ltb_spec now (start_point effect)); [lia | reflexivity].
Qed.

Lemma in_window_dec (effect : ActiveRumbleEffect) (now : time_point) :
  in_window effect now \/ ~ in_window effect now.
Proof. unfold in_window. lia. Qed.

(** ** The three branches of the simulator *)

Lemma rumble_envelope_attack (effect : ActiveRumbleEffect) (now : time_point) :
  phase_at effect now = Attack ->
  attack_length (envelope effect) <> 0 ->
  let v := u32 (attack_level (envelope effect) * elapsed_at effect now
                ÷ attack_length (envelope effect)) in
  rumble_envelope effect now = Some (v, v).
Proof.
  unfold phase_at, rumble_envelope, elapsed_at, time_left_at. cbv zeta.
  destruct (_ <? attack_length _); [| destruct (_ <? fade_length _); discriminate].
  intros _ H. rewrite checked_quot_nonzero by exact H. simpl.
  rewrite Z.add_0_r. reflexivity.
Qed.

Lemma rumble_envelope_fade (effect : ActiveRumbleEffect) (now : time_point) :
  phase_at effect now = Fade ->
  fade_length (envelope effect) <> 0 ->
  let dt := fade_length (envelope effect) - time_left_at effect now in
  let v := u32 (fade_level (envelope effect) * dt ÷ fade_length (envelope effect)) in
  rumble_envelope effect now = Some (v, v).
Proof.
  unfold phase_at, rumble_envelope, elapsed_at, time_left_at. cbv zeta.
  destruct (_ <? attack_length _); [discriminate |].
  destruct (_ <? fade_length _); [| discriminate].
  intros _ H. rewrite checked_quot_nonzero by exact H. simpl.
  rewrite Z.add_0_r. do 4 f_equal; lia.
Qed.

Lemma rumble_envelope_sustain (effect : ActiveRumbleEffect) (now : time_point) :
  phase_at effect now = Sustain ->
  effect_length effect <> 0 ->
  rumble_envelope effect now =
  Some (sustain_by_elapsed (start_weak effect) (end_weak effect)
          (elapsed_at effect now) (effect_length effect),
        sustain_by_elapsed (start_strong effect) (end_strong effect)
          (elapsed_at effect now) (effect_length effect)).
Proof.
  unfold phase_at, rumble_envelope, rumble_magnitude, elapsed_at, time_left_at. cbv zeta.
  destruct (_ <? attack_length _); [discriminate |].
  destruct (_ <? fade_length _); [discriminate |].
  intros _ H. rewrite !checked_quot_nonzero by exact H. reflexivity.
Qed.

(** The interpolation starts at the start magnitude and ends at the end
    magnitude. *)
Lemma sustain_by_elapsed_ends (start end_ length : Z) :
  0 <= start < 2 ^ 32 -> 0 <= end_ < 2 ^ 32 -> length <> 0 ->
  sustain_by_elapsed start end_ 0 length = start /\
  sustain_by_elapsed start end_ length length = end_.
Proof.
  intros Hs He Hl. unfold sustain_by_elapsed. split.
  - rewrite Z.mul_0_r, Z.quot_0_l by exact Hl. rewrite Z.add_0_r. now apply u32_small.
  - rewrite Z.quot_mul by exact Hl. unfold u32.
    rewrite Z.add_mod_idemp_r by lia.
    replace (start + (end_ - start)) with end_ by lia. now apply Z.mod_small.
Qed.

(** Between magnitudes in increasing order nothing wraps. *)
Lemma sustain_by_elapsed_rising (start end_ t length : Z) :
  0 <= start <= end_ -> end_ < 2 ^ 32 -> 0 <= t <= length -> 0 < length ->
  (sustain_by_elapsed start end_ t length = start + (end_ - start) * t / length) /\
  (start <= sustain_by_elapsed start end_ t length <= end_).
Proof.
  intros Hs He Ht Hl. unfold sustain_by_elapsed.
  rewrite (u32_small (end_ - start)) by lia.
  rewrite Z.quot_div_nonneg by nia.
  assert (0 <= (end_ - start) * t / length <= end_ - start) as Hq.
  { split.
    - apply Z.div_pos; nia.
    - apply Z.div_le_upper_bound; nia. }
  rewrite u32_small by lia. lia.
Qed.

Lemma create_magnitudes_range (id g : Z) (eff : ff_effect) (now0 : time_point) :
  let e := create_rumble_effect id g eff now0 in
  (0 <= start_weak e < 2 ^ 32 /\ 0 <= end_weak e < 2 ^ 32) /\
  (0 <= start_strong e < 2 ^ 32 /\ 0 <= end_strong e < 2 ^ 32).
Proof.
  unfold create_rumble_effect. destruct (u eff); simpl;
    repeat split; try apply u32_range; lia.
Qed.

(** ** Sustain phase *)

(** C3, as the code has it: in the sustain phase of an instance of positive
    length, each channel before gain is its start magnitude plus the
    difference to its end magnitude scaled by the ELAPSED time
    [t = length - time_left] over the length (the difference and the sum
    reduced modulo 2^32), so the value is the start magnitude when nothing
    has elapsed and the end magnitude when the whole length has. *)
Theorem sustain_interpolates_on_elapsed
    (id g : Z) (eff : ff_effect) (now0 now : time_point) :
  let e := create_rumble_effect id g eff now0 in
  in_window e now ->
  phase_at e now = Sustain ->
  0 < effect_length e ->
  rumble_envelope e now =
    Some (sustain_by_elapsed (start_weak e) (end_weak e)
            (elapsed_at e now) (effect_length e),
          sustain_by_elapsed (start_strong e) (end_strong e)
            (elapsed_at e now) (effect_length e)) /\
  (sustain_by_elapsed (start_weak e) (end_weak e) 0 (effect_length e) = start_weak e /\
   sustain_by_elapsed (start_weak e) (end_weak e) (effect_length e) (effect_length e)
     = end_weak e) /\
  (sustain_by_elapsed (start_strong e) (end_strong e) 0 (effect_length e)
     = start_strong e /\
   sustain_by_elapsed (start_strong e) (end_strong e) (effect_length e) (effect_length e)
     = end_strong e).
Proof.
  intros e _ Hphase Hlen.
  destruct (create_magnitudes_range id g eff now0) as [[Hsw Hew] [Hss Hes]].
  fold e in Hsw, Hew, Hss, Hes.
  split; [| split].
  - apply rumble_envelope_sustain; [exact Hphase | lia].
  - apply sustain_by_elapsed_ends; [exact Hsw | exact Hew | lia].
  - apply sustain_by_elapsed_ends; [exact Hss | exact Hes | lia].
Qed.

Lemma sustain_interpolates_on_elapsed_ramp :
  let e := create_rumble_effect 1 MAX_GAIN ramp_up 0 in
  (in_window e (ms 250) /\ phase_at e (ms 250) = Sustain /\ 0 < effect_length e) /\
  rumble_envelope e (ms 250) = Some (250, 250).
Proof.
  split.
  - vm_compute. repeat split; congruence.
  - destruct (sustain_interpolates_on_elapsed 1 MAX_GAIN ramp_up 0 (ms 250)) as [H _].
    + vm_compute. split; congruence.
    + reflexivity.
    + reflexivity.
    + rewrite H. reflexivity.
Defined.

(** A quarter of a second into a one-second ramp from 0 to 1000 the code
    computes 250 on both channels, where interpolation on the remaining 750
    milliseconds would give 750. *)
Lemma sustain_not_on_time_left :
  let e := create_rumble_effect 1 MAX_GAIN ramp_up 0 in
  let now := ms 250 in
  in_window e now /\ phase_at e now = Sustain /\ 0 < effect_length e /\
  time_left_at e now = 750 /\
  sustain_by_time_left (start_weak e) (end_weak e) (time_left_at e now) (effect_length e)
    = 750 /\
  rumble_envelope e now = Some (250, 250) /\
  rumble_envelope e now <>
    Some (sustain_by_time_left (start_weak e) (end_weak e)
            (time_left_at e now) (effect_length e),
          sustain_by_time_left (start_strong e) (end_strong e)
            (time_left_at e now) (effect_length e)).
Proof.
  vm_compute. repeat split; congruence.
Qed.

(** ** Totality of the simulator *)

(** Inside the window the simulator is undefined exactly when the divisor of
    the branch it takes is zero; outside it never divides. *)
Lemma simulate_rumble_undefined_iff (effect : ActiveRumbleEffect) (now : time_point) :
  simulate_rumble effect now = None <->
  in_window effect now /\ divisor_at effect now = 0.
Proof.
  destruct (in_window_dec effect now) as [Hin | Hout].
  - rewrite simulate_rumble_inside by exact Hin. split.
    + intros H. split; [exact Hin |].
      destruct (Z.eq_dec (divisor_at effect now) 0) as [Hz | Hnz]; [exact Hz |].
      destruct (rumble_envelope_defined effect now Hnz) as [p Hp].
      rewrite Hp in H. discriminate.
    + intros [_ Hz]. rewrite rumble_envelope_undefined by exact Hz. reflexivity.
  - rewrite simulate_rumble_outside by exact Hout. split.
    + discriminate.
    + intros [Hin _]. contradiction.
Qed.

(** For a constructed instance only one input is left undefined: the single
    instant of an instance of length zero without attack or fade. *)
Lemma simulate_rumble_undefined_created
    (id g : Z) (eff : ff_effect) (now0 now : time_point) :
  let e := create_rumble_effect id g eff now0 in
  simulate_rumble e now = None <->
  effect_length e = 0 /\ now = end_point e /\
  attack_length (envelope e) <= 0 /\ fade_length (envelope e) <= 0.
Proof.
  intros e. assert (Htimed := create_well_timed id g eff now0). fold e in Htimed.
  rewrite simulate_rumble_undefined_iff. split.
  - intros [Hin Hz].
    assert (Ht := elapsed_bounds e now Htimed Hin).
    assert (Hl := time_left_bounds e now Htimed Hin).
    assert (~ (0 < effect_length e \/ phase_at e now <> Sustain)) as Hno.
    { intros H. apply (divisor_positive e now Htimed Hin) in H. lia. }
    assert (effect_length e = 0) as Hlen by (destruct Htimed; lia).
    assert (phase_at e now = Sustain) as Hph.
    { destruct (phase_at e now) eqn:E; try reflexivity; exfalso; apply Hno; right; discriminate. }
    destruct Htimed as [_ Hend]. destruct Hin as [Hlo Hhi].
    rewrite Hlen in Hend. unfold ms in Hend.
    unfold phase_at in Hph.
    destruct (Z.ltb_spec (elapsed_at e now) (attack_length (envelope e))); [discriminate |].
    destruct (Z.ltb_spec (time_left_at e now) (fade_length (envelope e))); [discriminate |].
    repeat split; lia.
  - intros (Hlen & Hnow & Ha & Hf).
    destruct Htimed as [_ Hend]. rewrite Hlen in Hend. unfold ms in Hend.
    assert (time_left_at e now = 0) as Hl.
    { unfold time_left_at. rewrite Hnow, Z.sub_diag. reflexivity. }
    assert (elapsed_at e now = 0) as Ht by (unfold elapsed_at; lia).
    split; [unfold in_window; lia |].
    unfold divisor_at, phase_at. rewrite Ht, Hl.
    destruct (Z.ltb_spec 0 (attack_length (envelope e))); [lia |].
    destruct (Z.ltb_spec 0 (fade_length (envelope e))); [lia | exact Hlen].
Qed.

(** Before its end point a constructed instance is always simulated. *)
Lemma simulate_rumble_defined_before_end
    (id g : Z) (eff : ff_effect) (now0 now : time_point) :
  now < end_point (create_rumble_effect id g eff now0) ->
  is_Some (simulate_rumble (create_rumble_effect id g eff now0) now).
Proof.
  intros Hend.
  destruct (simulate_rumble (create_rumble_effect id g eff now0) now) as [p |] eqn:E;
    [eauto |].
  apply simulate_rumble_undefined_created in E. lia.
Qed.

(** C4, as the code has it: on an instance built by [create_rumble_effect]
    the simulator returns a pair at every time but one: it is undefined
    exactly for an instance of length zero without attack and without fade,
    at its end point (which is then its start point too), where the sustain
    branch divides by the length and nothing guards it. Everywhere else,
    the end point of an instance of positive length and all later times
    included, it returns. Inside the window the divisor of the branch taken
    is positive, so an attack of length zero is never entered and a fade of
    length zero is never entered; the sustain branch is entered with a
    positive length, or at that one input. *)
Theorem simulate_rumble_total_but_one_input
    (id g : Z) (eff : ff_effect) (now0 now : time_point) :
  let e := create_rumble_effect id g eff now0 in
  (simulate_rumble e now = None <->
   effect_length e = 0 /\ now = end_point e /\
   attack_length (envelope e) <= 0 /\ fade_length (envelope e) <= 0) /\
  (0 < effect_length e \/ now <> end_point e \/
   0 < attack_length (envelope e) \/ 0 < fade_length (envelope e) ->
   is_Some (simulate_rumble e now)) /\
  (in_window e now ->
   match phase_at e now with
   | Attack => 0 < attack_length (envelope e)
   | Fade => 0 < fade_length (envelope e)
   | Sustain => 0 < effect_length e \/ (effect_length e = 0 /\ now = end_point e)
   end).
Proof.
  intros e.
  assert (Htimed := create_well_timed id g eff now0). fold e in Htimed.
  assert (Hiff := simulate_rumble_undefined_created id g eff now0 now). fold e in Hiff.
  split; [exact Hiff | split].
  - intros Hdef. destruct (simulate_rumble e now) as [p |] eqn:E; [eauto |].
    apply Hiff in E. lia.
  - intros Hin.
    assert (Hdiv := divisor_positive e now Htimed Hin). unfold divisor_at in Hdiv.
    destruct (phase_at e now) eqn:Hphase.
    + apply Hdiv. right. discriminate.
    + apply Hdiv. right. discriminate.
    + destruct Htimed as [Hlen Hend]. destruct Hin as [Hlo Hhi]. unfold ms in Hend.
      destruct (Z.eq_dec (effect_length e) 0) as [Hz | Hnz]; [right | left; lia].
      split; [exact Hz | lia].
Qed.

(** At the end point of the one-second rumble, and a second after it. *)
Lemma simulate_rumble_total_but_one_input_end :
  let e := create_rumble_effect 1 MAX_GAIN rumble_100_200 0 in
  (0 < effect_length e /\ in_window e (ms 1000)) /\
  simulate_rumble e (ms 1000) = Some (100, 200) /\
  simulate_rumble e (ms 2000) = Some (0, 0).
Proof.
  assert (0 < effect_length (create_rumble_effect 1 MAX_GAIN rumble_100_200 0)) as Hlen
    by reflexivity.
  assert (in_window (create_rumble_effect 1 MAX_GAIN rumble_100_200 0) (ms 1000)) as Hin
    by (vm_compute; split; congruence).
  destruct (simulate_rumble_total_but_one_input 1 MAX_GAIN rumble_100_200 0 (ms 1000))
    as (_ & Hdef & Hbranch).
  destruct (simulate_rumble_total_but_one_input 1 MAX_GAIN rumble_100_200 0 (ms 2000))
    as (_ & Hdef' & _).
  destruct (Hdef (or_introl Hlen)) as [p Hp].
  destruct (Hdef' (or_introl Hlen)) as [p' Hp'].
  specialize (Hbranch Hin).
  split; [split; assumption |]. split.
  - rewrite Hp. vm_compute in Hp. congruence.
  - rewrite Hp'. vm_compute in Hp'. congruence.
Defined.

(** An instance of length zero without envelope, simulated at its only
    instant: no branch condition holds with a zero envelope, the sustain
    branch divides by the length, and nothing guards it. *)
Lemma simulate_rumble_divides_by_zero :
  let e := create_rumble_effect 1 MAX_GAIN rumble_zero_length 0 in
  in_window e 0 /\
  attack_length (envelope e) = 0 /\ fade_length (envelope e) = 0 /\
  effect_length e = 0 /\ phase_at e 0 = Sustain /\
  simulate_rumble e 0 = None.
Proof.
  vm_compute. repeat split; congruence.
Qed.

(** ** Gain *)

(** C7, as the code has it: wherever the simulator is defined, that is
    at every time but the end point of an instance of length zero without
    attack and without fade, it scales each channel value on its own by the
    gain captured in the instance, as [value * gain / 65535] on unsigned
    32-bit operands, after the phase computation; and there, with a captured
    gain of 0, the result is (0, 0) whatever the descriptor holds. *)
Theorem gain_scales_each_channel
    (id g : Z) (eff : ff_effect) (now0 now : time_point) :
  let e := create_rumble_effect id g eff now0 in
  0 < effect_length e \/ now <> end_point e \/
  0 < attack_length (envelope e) \/ 0 < fade_length (envelope e) ->
  ((~ in_window e now /\ simulate_rumble e now = Some (0, 0)) \/
   (in_window e now /\
    exists w0 s0, rumble_envelope e now = Some (w0, s0) /\
      simulate_rumble e now =
        Some ((w0 * g) mod 2 ^ 32 / 65535, (s0 * g) mod 2 ^ 32 / 65535))) /\
  simulate_rumble (create_rumble_effect id 0 eff now0) now = Some (0, 0).
Proof.
  intros e Hdef.
  assert (exists w0 s0, in_window e now -> rumble_envelope e now = Some (w0, s0))
    as (w0 & s0 & Henv).
  { destruct (rumble_envelope e now) as [[w0 s0] |] eqn:E; [exists w0, s0; auto |].
    exists 0, 0. intros Hin. exfalso.
    assert (simulate_rumble e now = None) as Hnone.
    { rewrite simulate_rumble_inside by exact Hin. rewrite E. reflexivity. }
    apply simulate_rumble_undefined_created in Hnone. fold e in Hnone. lia. }
  destruct (create_gain_only id 0 g eff now0 now) as (Henv0 & Hs0 & He0 & _).
  fold e in Henv0, Hs0, He0.
  destruct (in_window_dec e now) as [Hin | Hout].
  - specialize (Henv Hin). split.
    + right. split; [exact Hin |]. exists w0, s0. split; [exact Henv |].
      rewrite simulate_rumble_inside by exact Hin. rewrite Henv. simpl.
      unfold e. rewrite create_gain, !apply_gain_unfold. reflexivity.
    + rewrite simulate_rumble_inside by (unfold in_window in *; lia).
      rewrite Henv0, Henv. simpl.
      rewrite create_gain, !apply_gain_zero. reflexivity.
  - split.
    + left. split; [exact Hout |]. now apply simulate_rumble_outside.
    + apply simulate_rumble_outside. unfold in_window in *. lia.
Qed.

Lemma gain_scales_each_channel_half :
  let e := create_rumble_effect 1 32768 rumble_100_200 0 in
  (0 < effect_length e \/ ms 20 <> end_point e \/
   0 < attack_length (envelope e) \/ 0 < fade_length (envelope e)) /\
  simulate_rumble e (ms 20) = Some (50, 100) /\
  simulate_rumble (create_rumble_effect 1 0 rumble_100_200 0) (ms 20) = Some (0, 0).
Proof.
  assert (0 < effect_length (create_rumble_effect 1 32768 rumble_100_200 0) \/
          ms 20 <> end_point (create_rumble_effect 1 32768 rumble_100_200 0) \/
          0 < attack_length (envelope (create_rumble_effect 1 32768 rumble_100_200 0)) \/
          0 < fade_length (envelope (create_rumble_effect 1 32768 rumble_100_200 0)))
    as H.
  { left. reflexivity. }
  split; [exact H |].
  destruct (gain_scales_each_channel 1 32768 rumble_100_200 0 (ms 20) H) as [_ Hzero].
  split; [reflexivity | exact Hzero].
Defined.

(** A rumble of length zero activated with gain 0, simulated at its end
    point: the sustain branch divides by the length before the gain is
    applied, and no pair, (0, 0) or other, is returned. *)
Lemma zero_gain_undefined_at_zero_length_end :
  let e := create_rumble_effect 1 0 rumble_zero_length 0 in
  gain e = 0 /\ in_window e 0 /\ effect_length e = 0 /\
  simulate_rumble e 0 = None /\
  simulate_rumble e 0 <> Some (0, 0).
Proof.
  vm_compute. repeat split; congruence.
Qed.

(** ** Attack phase *)

(** C9, as the code has it: when the attack length is even, so that half of
    it is a whole number of milliseconds, and the elapsed time is that half,
    an instance at maximum gain reports [attack_level / 2], rounded down, on
    both channels. *)
Theorem attack_midpoint_even (effect : ActiveRumbleEffect) (now : time_point) :
  in_window effect now ->
  is_u16 (attack_level (envelope effect)) ->
  0 < attack_length (envelope effect) ->
  2 * elapsed_at effect now = attack_length (envelope effect) ->
  gain effect = MAX_GAIN ->
  simulate_rumble effect now =
    Some (attack_level (envelope effect) / 2, attack_level (envelope effect) / 2) /\
  half_within_rounding (attack_level (envelope effect) / 2)
                       (attack_level (envelope effect)).
Proof.
  intros Hin Hlevel Hlen Hhalf Hgain.
  set (L := attack_level (envelope effect)) in *.
  set (t := elapsed_at effect now) in *.
  unfold is_u16 in Hlevel.
  assert (0 <= L / 2 <= 65535) as Hq.
  { split; [apply Z.div_pos; lia | apply Z.div_le_upper_bound; lia]. }
  split.
  - assert (phase_at effect now = Attack) as Hphase.
    { unfold phase_at. fold t.
      destruct (Z.ltb_spec t (attack_length (envelope effect))); [reflexivity | lia]. }
    rewrite simulate_rumble_inside by exact Hin.
    rewrite (rumble_envelope_attack effect now Hphase) by lia.
    fold L. fold t. rewrite <- Hhalf. simpl.
    replace (L * t ÷ (2 * t)) with (L / 2).
    + rewrite u32_small by lia. rewrite Hgain, apply_gain_max by exact Hq. reflexivity.
    + rewrite Z.quot_div_nonneg by nia.
      rewrite Z.div_mul_cancel_r by lia. reflexivity.
  - unfold half_within_rounding.
    assert (H := Z.div_mod L 2 ltac:(lia)).
    assert (H' := Z.mod_pos_bound L 2 ltac:(lia)). lia.
Qed.

Lemma attack_midpoint_even_four :
  let e := create_rumble_effect 1 MAX_GAIN (constant_with_attack 4) 0 in
  (in_window e (ms 2) /\ 2 * elapsed_at e (ms 2) = attack_length (envelope e)) /\
  simulate_rumble e (ms 2) = Some (15000, 15000).
Proof.
  split.
  - vm_compute. repeat split; congruence.
  - destruct (attack_midpoint_even
                (create_rumble_effect 1 MAX_GAIN (constant_with_attack 4) 0) (ms 2))
      as [H _].
    + vm_compute. split; congruence.
    + vm_compute. split; congruence.
    + reflexivity.
    + reflexivity.
    + reflexivity.
    + rewrite H. reflexivity.
Defined.

(** An attack of 3 ms towards level 30000, at maximum gain. Half of the
    attack is 1.5 ms: the code works on whole milliseconds, and reports
    10000 at an elapsed time of 1 ms and 20000 at the instant 1.5 ms (which
    it counts as 2 ms elapsed) and at 2 ms, never 15000. *)
Lemma attack_midpoint_odd_length :
  let e := create_rumble_effect 1 MAX_GAIN (constant_with_attack 3) 0 in
  (attack_length (envelope e) = 3 /\ attack_level (envelope e) = 30000 /\
   gain e = MAX_GAIN) /\
  (elapsed_at e (ms 1) = 1 /\ simulate_rumble e (ms 1) = Some (10000, 10000)) /\
  (elapsed_at e 1500000 = 2 /\ simulate_rumble e 1500000 = Some (20000, 20000)) /\
  (elapsed_at e (ms 2) = 2 /\ simulate_rumble e (ms 2) = Some (20000, 20000)) /\
  ~ half_within_rounding 10000 30000 /\ ~ half_within_rounding 20000 30000.
Proof.
  repeat split; try reflexivity; unfold half_within_rounding; lia.
Qed.

(** ** Signed levels in unsigned magnitudes *)



(** The signed 64-bit intermediate values of the three branches stay far
    from the ends of their type. *)
Lemma phase_operands_fit_int64 (effect : ActiveRumbleEffect) (now : time_point) :
  well_timed effect -> in_window effect now ->
  envelope_in_range (envelope effect) ->
  0 <= start_weak effect < 2 ^ 32 -> 0 <= end_weak effect < 2 ^ 32 ->
  let t := elapsed_at effect now in
  let dt := fade_length (envelope effect) - time_left_at effect now in
  let rel := u32 (end_weak effect - start_weak effect) in
  0 <= attack_level (envelope effect) * t < 2 ^ 47 /\
  - 2 ^ 47 < fade_level (envelope effect) * dt < 2 ^ 47 /\
  0 <= rel * t < 2 ^ 47 /\
  (effect_length effect <> 0 ->
   0 <= start_weak effect + rel * t ÷ effect_length effect < 2 ^ 48).
Proof.
  intros Htimed Hin (Hal & Hav & Hfl & Hfv) Hs He t dt rel.
  assert (Ht := elapsed_bounds effect now Htimed Hin). fold t in Ht.
  assert (Hl := time_left_bounds effect now Htimed Hin).
  assert (Hrel := u32_range (end_weak effect - start_weak effect)). fold rel in Hrel.
  destruct Htimed as [Hlen _]. unfold is_u16 in *.
  repeat split; try nia.
  - apply Z.add_nonneg_nonneg; [lia |]. apply Z.quot_pos; nia.
  - assert (rel * t ÷ effect_length effect <= rel * t).
    { rewrite Z.quot_div_nonneg by nia. apply Z.div_le_upper_bound; nia. }
    nia.
Qed.

(** ** Removal from the active set *)

Lemma remove_effects_kept (on_rumble : bool) (filter_fn : ActiveRumbleEffect -> bool)
    (active : list ActiveRumbleEffect) :
  fst (remove_effects on_rumble filter_fn active) =
  List.filter (fun effect => negb (filter_fn effect)) active.
Proof.
  induction active as [| effect rest IH]; [reflexivity |].
  simpl. rewrite IH. destruct (filter_fn effect); reflexivity.
Qed.

Lemma remove_effects_calls (filter_fn : ActiveRumbleEffect -> bool)
    (active : list ActiveRumbleEffect) :
  snd (remove_effects true filter_fn active) =
  replicate (length (List.filter filter_fn active)) (0, 0).
Proof.
  induction active as [| effect rest IH]; [reflexivity |].
  simpl. rewrite IH. destruct (filter_fn effect); reflexivity.
Qed.

Lemma remove_effects_silent (filter_fn : ActiveRumbleEffect -> bool)
    (active : list ActiveRumbleEffect) :
  snd (remove_effects false filter_fn active) = [].
Proof.
  induction active as [| effect rest IH]; [reflexivity |].
  simpl. rewrite IH. rewrite andb_false_r. reflexivity.
Qed.

(** Removed and kept instances partition the active set. *)
Lemma filter_partition_length {A : Type} (f : A -> bool) (l : list A) :
  (length (List.filter f l) + length (List.filter (fun x => negb (f x)) l))%nat = length l.
Proof.
  induction l as [| x l IH]; [reflexivity |].
  simpl. destruct (f x); simpl; lia.
Qed.

Lemma remove_effects_Forall (P : ActiveRumbleEffect -> Prop) (on_rumble : bool)
    (filter_fn : ActiveRumbleEffect -> bool) (active : list ActiveRumbleEffect) :
  Forall P active ->
  Forall (fun effect => P effect /\ filter_fn effect = false)
         (fst (remove_effects on_rumble filter_fn active)).
Proof.
  induction 1 as [| effect rest Hx Hrest IH]; [constructor |].
  simpl. destruct (filter_fn effect) eqn:E; [exact IH |].
  constructor; [split; assumption | exact IH].
Qed.

(** ** The event handlers, one equation for each kind of event *)

Section Handlers.
Variable kernel : uinput_kernel.
Variable on_rumble : bool.
Variable clock : time_point.
Variable st : listener.

Lemma handle_upload (request : Z) :
    handle_event kernel on_rumble clock (upload_event request) st =
    ({| ff_effects := <[ff_id (UI_BEGIN_FF_UPLOAD kernel request) :=
                          UI_BEGIN_FF_UPLOAD kernel request]> (ff_effects st);
        current_gain := current_gain st;
        active_effects := active_effects st |}, []).
  Proof. reflexivity. Qed.

Lemma handle_erase (request : Z) :
    handle_event kernel on_rumble clock (erase_event request) st =
    (set_active st (fst (remove_effects on_rumble
                           (has_effect_id (UI_BEGIN_FF_ERASE kernel request))
                           (active_effects st))),
     snd (remove_effects on_rumble
            (has_effect_id (UI_BEGIN_FF_ERASE kernel request)) (active_effects st))).
  Proof. reflexivity. Qed.

Lemma handle_gain (v : Z) :
    handle_event kernel on_rumble clock (gain_event v) st =
    ({| ff_effects := ff_effects st;
        current_gain := clamp v 0 MAX_GAIN;
        active_effects := active_effects st |}, []).
  Proof. reflexivity. Qed.

  (** An [EV_FF] event whose code is not [FF_GAIN]. *)
Lemma handle_ff (ev : input_event) :
    type ev = EV_FF -> code ev <> FF_GAIN ->
    handle_event kernel on_rumble clock ev st =
    if negb (value ev =? 0) then
      match ff_effects st !! code ev with
      | Some effect =>
          (set_active st (active_effects st ++
             [create_rumble_effect (code ev) (current_gain st) effect clock]), [])
      | None => (st, [])
      end
    else
      (set_active st (fst (remove_effects on_rumble (has_effect_id (code ev))
                             (active_effects st))),
       snd (remove_effects on_rumble (has_effect_id (code ev)) (active_effects st))).
  Proof.
    intros Htype Hcode. unfold handle_event. rewrite Htype.
    change (EV_FF =? EV_UINPUT) with false. change (EV_FF =? EV_FF) with true.
    destruct (Z.eqb_spec (code ev) FF_GAIN) as [Heq | _]; [contradiction | reflexivity].
  Qed.

Lemma handle_activate (id v : Z) :
    id <> FF_GAIN -> v <> 0 ->
    handle_event kernel on_rumble clock (play_event id v) st =
    match ff_effects st !! id with
    | Some effect =>
        (set_active st (active_effects st ++
           [create_rumble_effect id (current_gain st) effect clock]), [])
    | None => (st, [])
    end.
  Proof.
    intros Hid Hv. rewrite handle_ff by (reflexivity || exact Hid).
    simpl. destruct (Z.eqb_spec v 0); [contradiction | reflexivity].
  Qed.

Lemma handle_deactivate (id : Z) :
    id <> FF_GAIN ->
    handle_event kernel on_rumble clock (play_event id 0) st =
    (set_active st (fst (remove_effects on_rumble (has_effect_id id) (active_effects st))),
     snd (remove_effects on_rumble (has_effect_id id) (active_effects st))).
  Proof. intros Hid. rewrite handle_ff by (reflexivity || exact Hid). reflexivity. Qed.

  (** No event removes a descriptor from the store. *)
Lemma handle_event_store_grows (ev : input_event) (id : Z) :
    is_Some (ff_effects st !! id) ->
    is_Some (ff_effects (fst (handle_event kernel on_rumble clock ev st)) !! id).
  Proof.
    intros Hid. unfold handle_event.
    destruct (_ && _).
    { simpl. rewrite lookup_insert. case_decide; [eauto | exact Hid]. }
    destruct (_ && _); [exact Hid |].
    destruct (_ && _); [exact Hid |].
    destruct (type ev =? EV_FF); [| destruct (type ev =? EV_LED); exact Hid].
    destruct (negb _); [| exact Hid].
    destruct (ff_effects st !! code ev); exact Hid.
  Qed.

  (** An instance in the active set after an event was there before, or was
      built by this event from the descriptor the store held for its id. *)
Lemma handle_event_added (ev : input_event) (effect : ActiveRumbleEffect) :
    effect ∈ active_effects (fst (handle_event kernel on_rumble clock ev st)) ->
    effect ∈ active_effects st \/
    exists d, ff_effects st !! effect_id effect = Some d /\
              type ev = EV_FF /\ code ev = effect_id effect /\ value ev <> 0 /\
              effect = create_rumble_effect (effect_id effect) (current_gain st) d clock.
  Proof.
    unfold handle_event.
    destruct (_ && _); [simpl; auto |].
    destruct (_ && _).
    { simpl. rewrite remove_effects_kept, list_elem_of_In, filter_In, <- list_elem_of_In.
      tauto. }
    destruct (_ && _); [simpl; auto |].
    destruct (Z.eqb_spec (type ev) EV_FF) as [Htype | _];
      [| destruct (type ev =? EV_LED); simpl; auto].
    destruct (Z.eqb_spec (value ev) 0) as [Hv | Hv]; simpl.
    { rewrite remove_effects_kept, list_elem_of_In, filter_In, <- list_elem_of_In.
      tauto. }
    destruct (ff_effects st !! code ev) as [d |] eqn:Hd; simpl; [| auto].
    rewrite elem_of_app, list_elem_of_singleton. intros [Hold | ->]; [auto | right].
    rewrite create_effect_id. exists d. repeat split; assumption.
  Qed.
End Handlers.

(** ** Deactivation, erase and expiry *)

Lemma tick_no_events (kernel : uinput_kernel) (on_rumble : bool)
    (now : time_point) (st : listener) :
  tick kernel on_rumble [] now st =
  (calls ← simulate_active on_rumble now
             (fst (remove_effects on_rumble (has_ended now) (active_effects st)));
   Some (set_active st (fst (remove_effects on_rumble (has_ended now) (active_effects st))),
         snd (remove_effects on_rumble (has_ended now) (active_effects st)) ++ calls)).
Proof. reflexivity. Qed.

(** C5: with the callback present, each of the three removals (the
    deactivation of an id, the erase of an id, the sweep of the instances
    whose end point is not after [now]) keeps exactly the instances that do
    not match and calls [on_rumble(0, 0)] once for each instance that does,
    and nothing else. *)
Theorem removal_fires_zero_per_instance
    (kernel : uinput_kernel) (clock now : time_point) (id request : Z) (st : listener) :
  let gone f := length (List.filter f (active_effects st)) in
  let kept f := List.filter (fun effect => negb (f effect)) (active_effects st) in
  let erased := has_effect_id (UI_BEGIN_FF_ERASE kernel request) in
  (id <> FF_GAIN ->
   handle_event kernel true clock (play_event id 0) st =
   (set_active st (kept (has_effect_id id)),
    replicate (gone (has_effect_id id)) (0, 0))) /\
  handle_event kernel true clock (erase_event request) st =
    (set_active st (kept erased), replicate (gone erased) (0, 0)) /\
  remove_effects true (has_ended now) (active_effects st) =
    (kept (has_ended now), replicate (gone (has_ended now)) (0, 0)) /\
  tick kernel true [] now st =
    (calls ← simulate_active true now (kept (has_ended now));
     Some (set_active st (kept (has_ended now)),
           replicate (gone (has_ended now)) (0, 0) ++ calls)) /\
  (forall f, (gone f + length (kept f))%nat = length (active_effects st)).
Proof.
  intros gone kept erased. unfold gone, kept, erased.
  split; [| split; [| split; [| split]]].
  - intros Hid. rewrite handle_deactivate by exact Hid.
    rewrite remove_effects_kept, remove_effects_calls. reflexivity.
  - rewrite handle_erase, remove_effects_kept, remove_effects_calls. reflexivity.
  - rewrite (surjective_pairing (remove_effects _ _ _)).
    rewrite remove_effects_kept, remove_effects_calls. reflexivity.
  - rewrite tick_no_events, remove_effects_kept, remove_effects_calls. reflexivity.
  - intros f. apply filter_partition_length.
Qed.

(** Two running instances of id 1: the deactivation of id 1 removes both
    with two calls, and so does an erase; left alone, both are swept after
    their end point with two calls, and the next tick is silent. *)
Lemma removal_fires_zero_per_instance_twice :
  1 <> FF_GAIN /\
  handle_event sample_kernel true 0 (play_event 1 0) two_running =
    (set_active two_running [], [(0, 0); (0, 0)]) /\
  handle_event sample_kernel true 0 (erase_event 5) two_running =
    (set_active two_running [], [(0, 0); (0, 0)]) /\
  tick sample_kernel true [] (ms 1000) two_running =
    Some (set_active two_running [], [(0, 0); (0, 0)]) /\
  tick sample_kernel true [] (ms 1020) (set_active two_running []) =
    Some (set_active two_running [], []).
Proof.
  assert (1 <> FF_GAIN) as Hid by discriminate.
  destruct (removal_fires_zero_per_instance sample_kernel 0 (ms 1000) 1 5 two_running)
    as (Hstop & Herase & _ & Htick & _).
  split; [exact Hid |].
  split; [rewrite (Hstop Hid); reflexivity |].
  split; [rewrite Herase; reflexivity |].
  split; [rewrite Htick; reflexivity | reflexivity].
Defined.

(** Without a callback the same instances are removed and nothing is
    called. *)
Lemma removal_without_callback (filter_fn : ActiveRumbleEffect -> bool)
    (active : list ActiveRumbleEffect) :
  remove_effects false filter_fn active =
  (List.filter (fun effect => negb (filter_fn effect)) active, []).
Proof.
  rewrite (surjective_pairing (remove_effects _ _ _)).
  rewrite remove_effects_kept, remove_effects_silent. reflexivity.
Qed.

(** ** Gain events *)

Lemma clamp_max_min (v lo hi : Z) :
  lo <= hi -> clamp v lo hi = Z.max lo (Z.min v hi).
Proof.
  intros H. unfold clamp.
  destruct (Z.ltb_spec v lo); [lia |].
  destruct (Z.ltb_spec hi v); lia.
Qed.

(** C6: a gain event stores the received value clamped to [0, 65535] (a
    value below 0 becomes 0, a value above 65535 becomes 65535, a value in
    between is kept) and touches neither the store nor any running
    instance, so the captured gains and what a tick reports for the running
    instances are what they would have been without it; an instance
    activated afterwards is built with the new gain, behind the untouched
    older ones. *)
Theorem set_gain_frame
    (kernel : uinput_kernel) (on_rumble : bool) (clock now : time_point)
    (v : Z) (st : listener) :
  let r := handle_event kernel on_rumble clock (gain_event v) st in
  (current_gain (fst r) = Z.max 0 (Z.min v 65535) /\
   0 <= current_gain (fst r) <= 65535) /\
  (active_effects (fst r) = active_effects st /\ ff_effects (fst r) = ff_effects st /\
   snd r = []) /\
  snd <$> tick kernel on_rumble [(clock, gain_event v)] now st =
    snd <$> tick kernel on_rumble [] now st /\
  (forall id value d clock',
     id <> FF_GAIN -> value <> 0 -> ff_effects st !! id = Some d ->
     handle_event kernel on_rumble clock' (play_event id value) (fst r) =
     (set_active (fst r)
        (active_effects st ++
         [create_rumble_effect id (Z.max 0 (Z.min v 65535)) d clock']), [])).
Proof.
  intros r. unfold r. rewrite handle_gain. simpl.
  assert (clamp v 0 MAX_GAIN = Z.max 0 (Z.min v 65535)) as Hclamp.
  { apply clamp_max_min. unfold MAX_GAIN. lia. }
  split; [split; [exact Hclamp | rewrite Hclamp; lia] |].
  split; [repeat split |]. split.
  - unfold tick. simpl.
    destruct (simulate_active on_rumble now _); reflexivity.
  - intros id value d clock' Hid Hvalue Hd.
    rewrite handle_activate by assumption. simpl. rewrite Hd, Hclamp. reflexivity.
Qed.

(** A gain of 32768 is kept, 70000 becomes 65535 and -5 becomes 0; the two
    running instances keep the gain 65535 they captured. *)
Lemma set_gain_frame_halved :
  (1 <> FF_GAIN /\ (1 : Z) <> 0 /\
   ff_effects two_running !! 1 = Some rumble_100_200) /\
  let st' := fst (handle_event sample_kernel true 0 (gain_event 32768) two_running) in
  map gain (active_effects
              (fst (handle_event sample_kernel true (ms 5) (play_event 1 1) st'))) =
    [MAX_GAIN; MAX_GAIN; 32768] /\
  snd <$> tick sample_kernel true [(ms 5, gain_event 32768)] (ms 20) two_running =
    Some [(200, 100); (200, 100)] /\
  current_gain (fst (handle_event sample_kernel true 0 (gain_event 70000) two_running))
    = 65535 /\
  current_gain (fst (handle_event sample_kernel true 0 (gain_event (-5)) two_running))
    = 0.
Proof.
  assert (1 <> FF_GAIN) as Hid by discriminate.
  assert ((1 : Z) <> 0) as Hone by discriminate.
  assert (ff_effects two_running !! 1 = Some rumble_100_200) as Hd by reflexivity.
  destruct (set_gain_frame sample_kernel true 0 (ms 20) 32768 two_running)
    as (_ & _ & _ & Hplay).
  destruct (set_gain_frame sample_kernel true (ms 5) (ms 20) 32768 two_running)
    as (_ & _ & Htick & _).
  destruct (set_gain_frame sample_kernel true 0 (ms 20) 70000 two_running)
    as ((Hhigh & _) & _).
  destruct (set_gain_frame sample_kernel true 0 (ms 20) (-5) two_running)
    as ((Hlow & _) & _).
  split; [repeat split; assumption |].
  split; [| split; [| split]].
  - rewrite (Hplay 1 1 rumble_100_200 (ms 5) Hid Hone Hd). reflexivity.
  - etransitivity; [exact Htick | reflexivity].
  - etransitivity; [exact Hhigh | reflexivity].
  - etransitivity; [exact Hlow | reflexivity].
Defined.

(** ** Activation *)

(** C8: an activation whose id has no descriptor in the store leaves the
    listener as it was and calls nothing; and whatever the event, an
    instance found in the active set after it was there before it or was
    built by it, as an activation of its id, from the descriptor the store
    held for that id. *)
Theorem activation_needs_descriptor
    (kernel : uinput_kernel) (on_rumble : bool) (clock : time_point)
    (ev : input_event) (st : listener) :
  (type ev = EV_FF -> code ev <> FF_GAIN -> value ev <> 0 ->
   ff_effects st !! code ev = None ->
   handle_event kernel on_rumble clock ev st = (st, [])) /\
  (forall effect,
     effect ∈ active_effects (fst (handle_event kernel on_rumble clock ev st)) ->
     effect ∈ active_effects st \/
     exists d, ff_effects st !! effect_id effect = Some d /\
               type ev = EV_FF /\ code ev = effect_id effect /\ value ev <> 0 /\
               effect = create_rumble_effect (effect_id effect) (current_gain st) d clock).
Proof.
  split.
  - intros Htype Hcode Hvalue Hmiss.
    rewrite handle_ff by assumption. rewrite Hmiss.
    destruct (Z.eqb_spec (value ev) 0); [contradiction | reflexivity].
  - intros effect. apply handle_event_added.
Qed.

(** Id 2 was never uploaded: its activation is dropped. Id 1 was: the
    instance its activation adds is the one built from the stored
    descriptor. *)
Lemma activation_needs_descriptor_sample :
  (ff_effects two_running !! 2 = None /\
   handle_event sample_kernel true (ms 5) (play_event 2 1) two_running =
     (two_running, [])) /\
  let added := create_rumble_effect 1 MAX_GAIN rumble_100_200 (ms 5) in
  added ∈ active_effects
            (fst (handle_event sample_kernel true (ms 5) (play_event 1 1) two_running)) /\
  ff_effects two_running !! effect_id added = Some rumble_100_200.
Proof.
  destruct (activation_needs_descriptor sample_kernel true (ms 5) (play_event 2 1)
              two_running) as [Hdrop _].
  destruct (activation_needs_descriptor sample_kernel true (ms 5) (play_event 1 1)
              two_running) as [_ Hadded].
  split.
  - split; [reflexivity |].
    apply Hdrop; [reflexivity | discriminate | discriminate | reflexivity].
  - assert (create_rumble_effect 1 MAX_GAIN rumble_100_200 (ms 5)
              ∈ active_effects
                  (fst (handle_event sample_kernel true (ms 5) (play_event 1 1)
                          two_running))) as Hin.
    { apply list_elem_of_In. vm_compute. right. right. left. reflexivity. }
    split; [exact Hin |].
    destruct (Hadded _ Hin) as [Hold | (d & Hd & _)]; reflexivity.
Defined.

(** ** Erase and the store *)

Lemma handle_erase_store (kernel : uinput_kernel) (on_rumble : bool)
    (clock : time_point) (request : Z) (st : listener) :
  ff_effects (fst (handle_event kernel on_rumble clock (erase_event request) st)) =
  ff_effects st.
Proof. reflexivity. Qed.

(** C2, at an upload of descriptor 1 followed by an erase of id 1: no call
    is made, and the store still maps id 1 to the descriptor, which a later
    activation of id 1 finds and runs. The erase handler filters the active
    set and never writes [ff_effects]. *)
Theorem erase_keeps_descriptor :
  let r := handle_events sample_kernel true
             [(0, upload_event 7); (0, erase_event 8)] initial_listener in
  snd r = [] /\
  ff_effects (fst r) !! 1 = Some rumble_100_200 /\
  active_effects (fst (handle_event sample_kernel true (ms 5) (play_event 1 1) (fst r))) =
    [create_rumble_effect 1 MAX_GAIN rumble_100_200 (ms 5)].
Proof. repeat split. Qed.

(** ** The report loop *)

(** With the initial [previous] a simulated pair other than (0, 0) is
    reported. *)
Lemma report_rumble_from_zero (now : time_point) (effect : ActiveRumbleEffect)
    (weak strong : Z) :
  previous effect = (0, 0) ->
  simulate_rumble effect now = Some (weak, strong) ->
  (weak, strong) <> (0, 0) ->
  report_rumble true now effect =
  Some (set_previous effect (weak, strong), [(strong, weak)]).
Proof.
  intros Hprev Hsim Hne. unfold report_rumble. rewrite Hsim, Hprev.
  cbn [mbind option_bind fst snd].
  destruct (Z.eqb_spec 0 weak) as [<- |]; [| reflexivity].
  destruct (Z.eqb_spec 0 strong) as [<- |]; [| reflexivity].
  contradiction.
Qed.

(** The simulator returns on every instance that survived the sweep. *)
Lemma simulate_active_defined (on_rumble : bool) (now : time_point)
    (active : list ActiveRumbleEffect) :
  Forall (fun effect => constructed effect /\ has_ended now effect = false) active ->
  is_Some (simulate_active on_rumble now active).
Proof.
  induction 1 as [| effect rest [(id & g & eff & now0 & ->) Hlive] _ [calls IH]].
  { simpl. eauto. }
  unfold has_ended in Hlive. apply Z.leb_gt in Hlive.
  destruct (simulate_rumble_defined_before_end id g eff now0 now Hlive) as [p Hp].
  simpl. unfold report_rumble. rewrite Hp. simpl.
  destruct (_ || _); simpl; rewrite IH; simpl; eauto.
Qed.

(** ** Invariant of the listener *)

Lemma handle_event_inv (kernel : uinput_kernel) (on_rumble : bool)
    (clock : time_point) (ev : input_event) (st : listener) :
  listener_inv st -> listener_inv (fst (handle_event kernel on_rumble clock ev st)).
Proof.
  unfold listener_inv. rewrite !Forall_forall. intros Hinv effect Hin.
  apply handle_event_added in Hin as [Hold | (d & Hd & _ & _ & _ & Hnew)].
  - destruct (Hinv effect Hold) as (Hc & Hp & Hs).
    repeat split; [exact Hc | exact Hp |]. now apply handle_event_store_grows.
  - repeat split.
    + rewrite Hnew. unfold constructed. eauto.
    + rewrite Hnew. apply create_previous.
    + apply handle_event_store_grows. rewrite Hd. eauto.
Qed.

Lemma handle_events_inv (kernel : uinput_kernel) (on_rumble : bool)
    (events : list (time_point * input_event)) (st : listener) :
  listener_inv st -> listener_inv (fst (handle_events kernel on_rumble events st)).
Proof.
  revert st. induction events as [| [clock ev] rest IH]; intros st Hinv; [exact Hinv |].
  simpl. apply IH. now apply handle_event_inv.
Qed.

(** A tick returns, keeps the invariant, and leaves in the active set the
    instances the sweep kept, as they were stored. *)
Lemma tick_inv (kernel : uinput_kernel) (on_rumble : bool)
    (events : list (time_point * input_event)) (now : time_point) (st : listener) :
  listener_inv st ->
  exists st' calls, tick kernel on_rumble events now st = Some (st', calls) /\
                    listener_inv st' /\
                    Forall (fun effect => now < end_point effect) (active_effects st').
Proof.
  intros Hinv. apply (handle_events_inv kernel on_rumble events) in Hinv.
  unfold tick. set (r := handle_events kernel on_rumble events st) in *.
  apply (remove_effects_Forall _ on_rumble (has_ended now)) in Hinv.
  destruct (simulate_active_defined on_rumble now
              (fst (remove_effects on_rumble (has_ended now) (active_effects (fst r)))))
    as [calls Hcalls].
  { eapply Forall_impl; [exact Hinv |]. simpl. tauto. }
  rewrite Hcalls. simpl. eexists _, _. split; [reflexivity |]. split.
  - unfold listener_inv. simpl. eapply Forall_impl; [exact Hinv |]. simpl. tauto.
  - simpl. eapply Forall_impl; [exact Hinv |]. simpl.
    intros effect [_ Hlive]. unfold has_ended in Hlive. now apply Z.leb_gt in Hlive.
Qed.

Lemma initial_listener_inv : listener_inv initial_listener.
Proof. constructor. Qed.

(** Started on the initial listener the loop never reaches the undefined
    division, whatever it is fed, and the stored [previous] of every running
    instance is the initial (0, 0) after any number of ticks. *)
Lemma run_inv (kernel : uinput_kernel) (on_rumble : bool)
    (ticks : list (list (time_point * input_event) * time_point)) (st : listener) :
  listener_inv st ->
  exists st' calls, run kernel on_rumble ticks st = Some (st', calls) /\ listener_inv st'.
Proof.
  revert st. induction ticks as [| [events now] rest IH]; intros st Hinv.
  { simpl. eauto. }
  destruct (tick_inv kernel on_rumble events now st Hinv) as (st1 & calls1 & H1 & Hinv1 & _).
  destruct (IH st1 Hinv1) as (st2 & calls2 & H2 & Hinv2).
  simpl. rewrite H1. simpl. rewrite H2. simpl. eauto.
Qed.

Lemma run_defined (kernel : uinput_kernel) (on_rumble : bool)
    (ticks : list (list (time_point * input_event) * time_point)) :
  is_Some (run kernel on_rumble ticks initial_listener).
Proof.
  destruct (run_inv kernel on_rumble ticks initial_listener initial_listener_inv)
    as (st & calls & H & _).
  rewrite H. eauto.
Qed.

(** C1, at the rumble of weak 100 and strong 200 uploaded and activated in
    the first of three ticks 20 ms apart: the simulated pair is (100, 200) at
    each tick, the callback is called with (200, 100) at each of them, and
    the stored last-reported pair of the instance is still (0, 0) after the
    third. The loop variable of the report loop is a copy: the comparison
    reads the stored pair and the update is made to the copy. *)
Theorem unchanged_value_reported_again :
  let e := create_rumble_effect 1 MAX_GAIN rumble_100_200 0 in
  let ticks := [([(0, upload_event 7); (0, play_event 1 1)], ms 20);
                ([], ms 40); ([], ms 60)] in
  (simulate_rumble e (ms 20) = Some (100, 200) /\
   simulate_rumble e (ms 40) = Some (100, 200) /\
   simulate_rumble e (ms 60) = Some (100, 200)) /\
  snd <$> run sample_kernel true ticks initial_listener =
    Some [(200, 100); (200, 100); (200, 100)] /\
  (fun r => map previous (active_effects (fst r)))
    <$> run sample_kernel true ticks initial_listener = Some [(0, 0)].
Proof. repeat split. Qed.

(** What a tick stores for a running instance is the instance as it was:
    every tick after which an instance with a nonzero simulated pair is still
    running reports that pair again. *)
Lemma simulate_active_reports_all (now : time_point) (active : list ActiveRumbleEffect)
    (pairs : list (Z * Z)) :
  Forall2 (fun effect p => previous effect = (0, 0) /\
                           simulate_rumble effect now = Some p /\ p <> (0, 0))
          active pairs ->
  simulate_active true now active = Some (map (fun p => (snd p, fst p)) pairs).
Proof.
  induction 1 as [| effect [weak strong] rest pairs' (Hprev & Hsim & Hne) _ IH].
  { reflexivity. }
  simpl. rewrite (report_rumble_from_zero now effect weak strong Hprev Hsim Hne).
  simpl. rewrite IH. reflexivity.
Qed.

(** ** Further properties of the simulator *)

(** X1: a constructed instance starts at the clock reading of its
    construction plus the replay delay, and lasts the replay length, both
    in milliseconds and each clamped to [0, 32767] (a field above 32767
    counts as 32767). So its window starts at or after the construction,
    ends at or after its start, and is over at most 65534 ms after the
    construction. The instance carries the id and the gain passed in, and
    (0, 0) as last-reported pair. *)
Theorem create_window_bounds (id g : Z) (eff : ff_effect) (now0 : time_point) :
  let e := create_rumble_effect id g eff now0 in
  let delay := Z.max 0 (Z.min (replay_delay (replay eff)) 32767) in
  let length := Z.max 0 (Z.min (replay_length (replay eff)) 32767) in
  (effect_length e = length /\
   start_point e = now0 + delay * 1000000 /\
   end_point e = now0 + delay * 1000000 + length * 1000000) /\
  now0 <= start_point e <= end_point e /\
  end_point e <= now0 + ms 65534 /\
  end_point e - start_point e = ms (effect_length e) /\
  0 <= effect_length e <= 32767 /\
  effect_id e = id /\ gain e = g /\ previous e = (0, 0).
Proof.
  intros e delay length.
  assert (clamp (replay_delay (replay eff)) 0 32767 = delay) as Hd
    by (apply clamp_max_min; lia).
  assert (clamp (replay_length (replay eff)) 0 32767 = length) as Hl
    by (apply clamp_max_min; lia).
  assert (effect_length e = length /\
          start_point e = now0 + delay * 1000000 /\
          end_point e = now0 + delay * 1000000 + length * 1000000) as Hexact.
  { unfold e, create_rumble_effect. rewrite Hd, Hl. unfold ms.
    destruct (u eff); simpl; repeat split. }
  split; [exact Hexact |]. destruct Hexact as (H1 & H2 & H3).
  assert (effect_id e = id /\ gain e = g /\ previous e = (0, 0)) as Hrest.
  { unfold e. rewrite create_effect_id, create_gain, create_previous. repeat split. }
  unfold ms. rewrite H1, H2, H3. unfold delay, length in *.
  repeat split; try apply Hrest; lia.
Qed.

(** X2: inside the window the elapsed time the simulator works with is the
    real elapsed time rounded UP to whole milliseconds (the remaining time
    is truncated, the elapsed time is the length minus it). *)
Theorem elapsed_rounds_up (id g : Z) (eff : ff_effect) (now0 now : time_point) :
  let e := create_rumble_effect id g eff now0 in
  in_window e now ->
  now - start_point e <= ms (elapsed_at e now) < now - start_point e + 1000000 /\
  0 <= elapsed_at e now <= effect_length e.
Proof.
  intros e Hin.
  assert (Htimed := create_well_timed id g eff now0). fold e in Htimed.
  split; [| now apply elapsed_bounds].
  destruct Htimed as [_ Hend]. destruct Hin as [Hlo Hhi].
  unfold elapsed_at, time_left_at, duration_cast_ms, ms in *.
  rewrite Z.quot_div_nonneg by lia.
  assert (H := Z.div_mod (end_point e - now) 1000000 ltac:(lia)).
  assert (H' := Z.mod_pos_bound (end_point e - now) 1000000 ltac:(lia)).
  lia.
Qed.

Lemma elapsed_rounds_up_half_ms :
  let e := create_rumble_effect 1 MAX_GAIN rumble_100_200 0 in
  in_window e 500000 /\ elapsed_at e 500000 = 1.
Proof.
  assert (in_window (create_rumble_effect 1 MAX_GAIN rumble_100_200 0) 500000) as Hin.
  { vm_compute. split; congruence. }
  split; [exact Hin |].
  destruct (elapsed_rounds_up 1 MAX_GAIN rumble_100_200 0 500000 Hin) as [_ _].
  reflexivity.
Defined.

(** X3: a rumble descriptor with 16-bit magnitudes and a positive clamped
    length is reported flat over its whole window, end point included: each
    channel is its magnitude scaled by the captured gain. *)
Theorem rumble_constant_over_window
    (id g : Z) (eff : ff_effect) (now0 now : time_point) (strong weak : Z) :
  u eff = FF_RUMBLE strong weak ->
  is_u16 strong -> is_u16 weak -> 0 <= g <= MAX_GAIN ->
  let e := create_rumble_effect id g eff now0 in
  0 < effect_length e ->
  in_window e now ->
  simulate_rumble e now = Some (weak * g / 65535, strong * g / 65535).
Proof.
  intros Hu Hs Hw Hg e Hlen Hin.
  assert (Htimed := create_well_timed id g eff now0). fold e in Htimed.
  assert (Ht := elapsed_bounds e now Htimed Hin).
  assert (Hl := time_left_bounds e now Htimed Hin).
  assert (envelope e = no_envelope /\ gain e = g /\
          start_weak e = weak /\ end_weak e = weak /\
          start_strong e = strong /\ end_strong e = strong) as (Henv & Hgain & Hsw & Hew & Hss & Hes).
  { unfold e, create_rumble_effect. rewrite Hu. simpl.
    unfold is_u16 in *. rewrite !u32_small by lia. repeat split. }
  assert (phase_at e now = Sustain) as Hphase.
  { unfold phase_at. rewrite Henv. simpl.
    destruct (Z.ltb_spec (elapsed_at e now) 0); [lia |].
    destruct (Z.ltb_spec (time_left_at e now) 0); [lia | reflexivity]. }
  clearbody e.
  rewrite simulate_rumble_inside by exact Hin.
  rewrite rumble_envelope_sustain by (exact Hphase || lia).
  rewrite Hsw, Hew, Hss, Hes, Hgain. unfold sustain_by_elapsed.
  rewrite !Z.sub_diag. change (u32 0) with 0. rewrite Z.mul_0_l.
  rewrite Z.quot_0_l by lia. rewrite !Z.add_0_r.
  unfold is_u16 in *. rewrite !u32_small by lia. simpl.
  rewrite !apply_gain_no_wrap by (unfold is_u16; lia). reflexivity.
Qed.

Lemma rumble_constant_over_window_end :
  let e := create_rumble_effect 1 32768 rumble_100_200 0 in
  (0 < effect_length e /\ in_window e (ms 1000)) /\
  simulate_rumble e (ms 1000) = Some (50, 100).
Proof.
  assert (in_window (create_rumble_effect 1 32768 rumble_100_200 0) (ms 1000)) as Hin.
  { vm_compute. split; congruence. }
  split; [split; [reflexivity | exact Hin] |].
  rewrite (rumble_constant_over_window 1 32768 rumble_100_200 0 (ms 1000) 200 100);
    try reflexivity; try exact Hin; unfold is_u16, MAX_GAIN; lia.
Defined.

Lemma phase_attack_inv (effect : ActiveRumbleEffect) (now : time_point) :
  phase_at effect now = Attack ->
  elapsed_at effect now < attack_length (envelope effect).
Proof.
  unfold phase_at.
  destruct (Z.ltb_spec (elapsed_at effect now) (attack_length (envelope effect)));
    [trivial |].
  destruct (_ <? _); discriminate.
Qed.

Lemma phase_fade_inv (effect : ActiveRumbleEffect) (now : time_point) :
  phase_at effect now = Fade ->
  attack_length (envelope effect) <= elapsed_at effect now /\
  time_left_at effect now < fade_length (envelope effect).
Proof.
  unfold phase_at.
  destruct (Z.ltb_spec (elapsed_at effect now) (attack_length (envelope effect)));
    [discriminate |].
  destruct (Z.ltb_spec (time_left_at effect now) (fade_length (envelope effect)));
    [auto | discriminate].
Qed.

Lemma scaled_quotient_bounds (level num den : Z) :
  0 <= level -> 0 <= num <= den -> 0 < den ->
  0 <= level * num / den <= level.
Proof.
  intros Hl Hn Hd. split.
  - apply Z.div_pos; nia.
  - apply Z.div_le_upper_bound; nia.
Qed.

(** X4: in the attack phase both channels carry the same value, the attack
    level scaled by the elapsed fraction of the attack length and then by
    the gain; it never exceeds the attack level. The magnitudes of the
    descriptor play no part. *)
Theorem attack_value_bounded (id g : Z) (eff : ff_effect) (now0 now : time_point) :
  let e := create_rumble_effect id g eff now0 in
  envelope_in_range (envelope e) -> 0 <= g <= MAX_GAIN ->
  in_window e now -> phase_at e now = Attack ->
  exists v,
    simulate_rumble e now = Some (v, v) /\
    v = attack_level (envelope e) * elapsed_at e now / attack_length (envelope e)
          * g / 65535 /\
    0 <= v <= attack_level (envelope e).
Proof.
  intros e (Hal & Hav & _ & _) Hg Hin Hphase.
  assert (Htimed := create_well_timed id g eff now0). fold e in Htimed.
  assert (Ht := elapsed_bounds e now Htimed Hin).
  assert (Hlt := phase_attack_inv e now Hphase).
  assert (gain e = g) as Hgain by apply create_gain.
  clearbody e. unfold is_u16 in *.
  set (L := attack_level (envelope e)) in *.
  set (A := attack_length (envelope e)) in *.
  set (t := elapsed_at e now) in *.
  assert (0 <= L * t / A <= L) as Hpre by (apply scaled_quotient_bounds; lia).
  assert (0 <= L * t / A * g / 65535 <= L * t / A) as Hpost.
  { unfold MAX_GAIN in Hg. apply scaled_quotient_bounds; lia. }
  exists (L * t / A * g / 65535). split; [| split; [reflexivity | lia]].
  rewrite simulate_rumble_inside by exact Hin.
  rewrite (rumble_envelope_attack e now Hphase) by (fold A; lia).
  fold L A t. rewrite Z.quot_div_nonneg by nia.
  rewrite u32_small by lia. simpl.
  rewrite Hgain, apply_gain_no_wrap by (unfold is_u16; lia). reflexivity.
Qed.

Lemma attack_value_bounded_third :
  let e := create_rumble_effect 1 MAX_GAIN (constant_with_attack 3) 0 in
  (envelope_in_range (envelope e) /\ in_window e (ms 1) /\ phase_at e (ms 1) = Attack) /\
  simulate_rumble e (ms 1) = Some (10000, 10000).
Proof.
  assert (envelope_in_range
            (envelope (create_rumble_effect 1 MAX_GAIN (constant_with_attack 3) 0))) as Henv.
  { vm_compute. repeat split; congruence. }
  assert (in_window (create_rumble_effect 1 MAX_GAIN (constant_with_attack 3) 0) (ms 1))
    as Hin by (vm_compute; split; congruence).
  split; [repeat split; try apply Henv; apply Hin |].
  assert (0 <= MAX_GAIN <= MAX_GAIN) as Hg by (unfold MAX_GAIN; lia).
  destruct (attack_value_bounded 1 MAX_GAIN (constant_with_attack 3) 0 (ms 1)
              Henv Hg Hin eq_refl) as (v & Hsim & Hv & _).
  rewrite Hsim, Hv. reflexivity.
Defined.

(** X5: in the fade phase both channels carry the same value, the fade level
    scaled by the part of the fade length already spent, then by the gain:
    it RISES towards the fade level as the remaining time shrinks, reaches
    the fade level before gain when no whole millisecond remains, and never
    exceeds it. *)
Theorem fade_value_rises (id g : Z) (eff : ff_effect) (now0 now : time_point) :
  let e := create_rumble_effect id g eff now0 in
  envelope_in_range (envelope e) -> 0 <= g <= MAX_GAIN ->
  in_window e now -> phase_at e now = Fade ->
  exists v0,
    rumble_envelope e now = Some (v0, v0) /\
    v0 = fade_level (envelope e) * (fade_length (envelope e) - time_left_at e now)
           / fade_length (envelope e) /\
    0 <= v0 <= fade_level (envelope e) /\
    (time_left_at e now = 0 -> v0 = fade_level (envelope e)) /\
    simulate_rumble e now = Some (v0 * g / 65535, v0 * g / 65535).
Proof.
  intros e (_ & _ & Hfl & Hfv) Hg Hin Hphase.
  assert (Htimed := create_well_timed id g eff now0). fold e in Htimed.
  assert (Hl := time_left_bounds e now Htimed Hin).
  destruct (phase_fade_inv e now Hphase) as [_ Hlt].
  assert (gain e = g) as Hgain by apply create_gain.
  clearbody e. unfold is_u16 in *.
  set (L := fade_level (envelope e)) in *.
  set (F := fade_length (envelope e)) in *.
  set (tl := time_left_at e now) in *.
  assert (0 <= L * (F - tl) / F <= L) as Hpre by (apply scaled_quotient_bounds; lia).
  assert (rumble_envelope e now = Some (L * (F - tl) / F, L * (F - tl) / F)) as Henv.
  { rewrite (rumble_envelope_fade e now Hphase) by (fold F; lia).
    fold L F tl. rewrite Z.quot_div_nonneg by nia.
    rewrite u32_small by lia. reflexivity. }
  exists (L * (F - tl) / F).
  split; [exact Henv |]. split; [reflexivity |]. split; [exact Hpre |]. split.
  - intros ->. rewrite Z.sub_0_r. apply Z.div_mul. lia.
  - rewrite simulate_rumble_inside by exact Hin. rewrite Henv. simpl.
    rewrite Hgain, apply_gain_no_wrap by (unfold is_u16; lia). reflexivity.
Qed.

Lemma fade_value_rises_halfway :
  let e := create_rumble_effect 1 MAX_GAIN (constant_with_fade 4) 0 in
  (envelope_in_range (envelope e) /\ in_window e (ms 998) /\
   phase_at e (ms 998) = Fade) /\
  simulate_rumble e (ms 998) = Some (15000, 15000).
Proof.
  assert (envelope_in_range
            (envelope (create_rumble_effect 1 MAX_GAIN (constant_with_fade 4) 0))) as Henv.
  { vm_compute. repeat split; congruence. }
  assert (in_window (create_rumble_effect 1 MAX_GAIN (constant_with_fade 4) 0) (ms 998))
    as Hin by (vm_compute; split; congruence).
  assert (0 <= MAX_GAIN <= MAX_GAIN) as Hg by (unfold MAX_GAIN; lia).
  split; [repeat split; try apply Henv; apply Hin |].
  destruct (fade_value_rises 1 MAX_GAIN (constant_with_fade 4) 0 (ms 998)
              Henv Hg Hin eq_refl) as (v0 & _ & Hv & _ & _ & Hsim).
  rewrite Hsim, Hv. reflexivity.
Defined.

(** X6: a ramp between non-negative levels that goes DOWN is not
    interpolated between its levels: the difference of the magnitudes is
    taken in unsigned 32-bit arithmetic, and at every sustain instant
    strictly between the first and the last millisecond both channels
    carry, before gain, a value of at least 131072, above any level. *)
Theorem descending_ramp_overshoots
    (id g : Z) (eff : ff_effect) (now0 now : time_point)
    (start_level end_level : Z) (env : ff_envelope) :
  u eff = FF_RAMP start_level end_level env ->
  0 <= end_level < start_level -> start_level <= 32767 ->
  let e := create_rumble_effect id g eff now0 in
  in_window e now -> phase_at e now = Sustain ->
  0 < elapsed_at e now < effect_length e ->
  exists v,
    rumble_envelope e now = Some (v, v) /\
    v = start_level +
        (2 ^ 32 - (start_level - end_level)) * elapsed_at e now / effect_length e /\
    131072 <= v < 2 ^ 32.
Proof.
  intros Hu Hlv Hmax e Hin Hphase Ht.
  assert (Htimed := create_well_timed id g eff now0). fold e in Htimed.
  assert (start_weak e = start_level /\ end_weak e = end_level /\
          start_strong e = start_level /\ end_strong e = end_level)
    as (Hsw & Hew & Hss & Hes).
  { unfold e, create_rumble_effect. rewrite Hu. simpl.
    rewrite !u32_small by lia. repeat split. }
  destruct Htimed as [Hlen _]. clearbody e.
  set (t := elapsed_at e now) in *. set (len := effect_length e) in *.
  set (d := start_level - end_level).
  assert (u32 (end_level - start_level) = 2 ^ 32 - d) as Hrel.
  { unfold u32, d. symmetry. apply Z.mod_unique_pos with (q := -1); lia. }
  assert (131072 <= (2 ^ 32 - d) * t / len) as Hlo.
  { apply Z.div_le_lower_bound; [lia |]. unfold d. nia. }
  assert ((2 ^ 32 - d) * t / len < 2 ^ 32 - d - 131071) as Hhi.
  { apply Z.div_lt_upper_bound; [lia |]. unfold d. nia. }
  exists (start_level + (2 ^ 32 - d) * t / len).
  split; [| split; [reflexivity | unfold d in *; lia]].
  rewrite rumble_envelope_sustain by (exact Hphase || (fold len; lia)).
  rewrite Hsw, Hew, Hss, Hes. fold t len. unfold sustain_by_elapsed.
  rewrite Hrel. rewrite Z.quot_div_nonneg by (unfold d; nia).
  rewrite u32_small by (unfold d in *; lia). reflexivity.
Qed.

Lemma descending_ramp_overshoots_quarter :
  let e := create_rumble_effect 1 MAX_GAIN ramp_down 0 in
  (in_window e (ms 250) /\ phase_at e (ms 250) = Sustain /\
   0 < elapsed_at e (ms 250) < effect_length e) /\
  rumble_envelope e (ms 250) = Some (1073742574, 1073742574).
Proof.
  assert (in_window (create_rumble_effect 1 MAX_GAIN ramp_down 0) (ms 250)) as Hin.
  { vm_compute. split; congruence. }
  assert (0 < elapsed_at (create_rumble_effect 1 MAX_GAIN ramp_down 0) (ms 250)
          < effect_length (create_rumble_effect 1 MAX_GAIN ramp_down 0)) as Ht.
  { vm_compute. split; reflexivity. }
  split; [repeat split; try apply Hin; apply Ht |].
  destruct (descending_ramp_overshoots 1 MAX_GAIN ramp_down 0 (ms 250) 1000 0 no_envelope)
    as (v & Henv & Hv & _); [reflexivity | lia | lia | exact Hin | reflexivity | exact Ht |].
  rewrite Henv, Hv. reflexivity.
Defined.

(** X7: whatever the instance and the time, a value the simulator returns
    lies between 0 and 65537 on each channel: the last step divides an
    unsigned 32-bit product by 65535. *)
Theorem simulate_rumble_output_bound (effect : ActiveRumbleEffect) (now : time_point)
    (weak strong : Z) :
  simulate_rumble effect now = Some (weak, strong) ->
  0 <= weak <= 65537 /\ 0 <= strong <= 65537.
Proof.
  assert (forall v g, 0 <= apply_gain v g <= 65537) as Hbound.
  { intros v g. rewrite apply_gain_unfold.
    assert (H := Z.mod_pos_bound (v * g) (2 ^ 32) ltac:(lia)). split.
    - apply Z.div_pos; lia.
    - apply Z.div_le_upper_bound; lia. }
  unfold simulate_rumble. destruct (_ || _).
  - intros [= <- <-]. lia.
  - destruct (rumble_envelope effect now) as [p |]; simpl; [| discriminate].
    intros [= <- <-]. split; apply Hbound.
Qed.

(** Level -1 at gain 1 reaches the bound. *)
Lemma simulate_rumble_output_bound_reached :
  simulate_rumble (create_rumble_effect 1 1 constant_minus_one 0) (ms 20) =
    Some (65537, 65537) /\
  (0 <= 65537 <= 65537).
Proof.
  assert (simulate_rumble (create_rumble_effect 1 1 constant_minus_one 0) (ms 20) =
          Some (65537, 65537)) as H by reflexivity.
  split; [exact H |].
  apply (simulate_rumble_output_bound _ _ _ _ H).
Defined.

(** ** Further properties of the listener *)

(** X8: an upload followed by the activation of the uploaded id runs the
    descriptor just uploaded, whatever the store held for that id before:
    the instance is appended behind the running ones with the current gain,
    the other ids of the store are untouched, and nothing is called. *)
Theorem upload_then_activate
    (kernel : uinput_kernel) (on_rumble : bool) (clock clock' : time_point)
    (request v : Z) (st : listener) :
  let D := UI_BEGIN_FF_UPLOAD kernel request in
  ff_id D <> FF_GAIN -> v <> 0 ->
  let r := handle_events kernel on_rumble
             [(clock, upload_event request); (clock', play_event (ff_id D) v)] st in
  snd r = [] /\
  active_effects (fst r) =
    active_effects st ++ [create_rumble_effect (ff_id D) (current_gain st) D clock'] /\
  ff_effects (fst r) !! ff_id D = Some D /\
  (forall id, id <> ff_id D -> ff_effects (fst r) !! id = ff_effects st !! id) /\
  current_gain (fst r) = current_gain st.
Proof.
  intros D Hid Hv r. unfold r. cbn [handle_events].
  rewrite handle_upload. fold D. cbn [fst snd].
  rewrite handle_activate by assumption. cbn [ff_effects current_gain active_effects].
  rewrite lookup_insert_eq. cbn [fst snd set_active ff_effects current_gain active_effects app].
  repeat split; try apply lookup_insert_eq.
  intros id Hne. apply lookup_insert_ne. congruence.
Qed.

Lemma upload_then_activate_replaces :
  let st := {| ff_effects := {[ 1 := ramp_up ]};
               current_gain := 32768;
               active_effects := [] |} in
  (ff_id (UI_BEGIN_FF_UPLOAD sample_kernel 7) <> FF_GAIN /\ (1 : Z) <> 0) /\
  active_effects
    (fst (handle_events sample_kernel true
            [(0, upload_event 7); (ms 5, play_event 1 1)] st)) =
  [create_rumble_effect 1 32768 rumble_100_200 (ms 5)].
Proof.
  assert (ff_id (UI_BEGIN_FF_UPLOAD sample_kernel 7) <> FF_GAIN) as Hid by discriminate.
  assert ((1 : Z) <> 0) as Hv by discriminate.
  split; [split; assumption |].
  destruct (upload_then_activate sample_kernel true 0 (ms 5) 7 1
              {| ff_effects := {[ 1 := ramp_up ]}; current_gain := 32768;
                 active_effects := [] |} Hid Hv) as (_ & Hactive & _).
  exact Hactive.
Defined.

Lemma remove_effects_none (on_rumble : bool) (filter_fn : ActiveRumbleEffect -> bool)
    (active : list ActiveRumbleEffect) :
  Forall (fun effect => filter_fn effect = false) active ->
  remove_effects on_rumble filter_fn active = (active, []).
Proof.
  induction 1 as [| effect rest Hx _ IH]; [reflexivity |].
  simpl. rewrite Hx, IH. reflexivity.
Qed.

Lemma set_active_same (st : listener) : set_active st (active_effects st) = st.
Proof. destruct st. reflexivity. Qed.

(** X9: after the deactivation of an id no running instance has that id, the
    instances of the other ids are all still running, and a second
    deactivation of the same id changes nothing and calls nothing. *)
Theorem deactivate_idempotent
    (kernel : uinput_kernel) (on_rumble : bool) (clock clock' : time_point)
    (id : Z) (st : listener) :
  id <> FF_GAIN ->
  let r := handle_event kernel on_rumble clock (play_event id 0) st in
  Forall (fun effect => effect_id effect <> id) (active_effects (fst r)) /\
  (forall effect, effect ∈ active_effects st -> effect_id effect <> id ->
                  effect ∈ active_effects (fst r)) /\
  handle_event kernel on_rumble clock' (play_event id 0) (fst r) = (fst r, []).
Proof.
  intros Hid r. unfold r. rewrite handle_deactivate by exact Hid. simpl.
  assert (Forall (fun effect => has_effect_id id effect = false)
            (fst (remove_effects on_rumble (has_effect_id id) (active_effects st))))
    as Hgone.
  { eapply Forall_impl;
      [apply (remove_effects_Forall (fun _ => True)); apply Forall_true; trivial |].
    simpl. tauto. }
  split; [| split].
  - eapply Forall_impl; [exact Hgone |]. simpl.
    intros effect H. unfold has_effect_id in H. now apply Z.eqb_neq in H.
  - intros effect Hin Hne.
    rewrite remove_effects_kept, list_elem_of_In, filter_In, <- list_elem_of_In.
    split; [exact Hin |]. unfold has_effect_id.
    destruct (Z.eqb_spec (effect_id effect) id); [contradiction | reflexivity].
  - rewrite handle_deactivate by exact Hid. simpl.
    rewrite (remove_effects_none _ _ _ Hgone). simpl.
    destruct st. reflexivity.
Qed.

Lemma deactivate_idempotent_twice :
  1 <> FF_GAIN /\
  handle_events sample_kernel true
    [(0, play_event 1 0); (0, play_event 1 0)] two_running =
  (set_active two_running [], [(0, 0); (0, 0)]).
Proof.
  assert (1 <> FF_GAIN) as Hid by discriminate.
  split; [exact Hid |].
  destruct (deactivate_idempotent sample_kernel true 0 0 1 two_running Hid)
    as (_ & _ & Hagain).
  cbn [handle_events]. rewrite Hagain. reflexivity.
Defined.

(** X10: an event that is neither a force-feedback event nor an upload or
    erase request (an LED event, a key, an unknown uinput code) leaves the
    listener as it was and calls nothing. *)
Theorem unhandled_event_ignored
    (kernel : uinput_kernel) (on_rumble : bool) (clock : time_point)
    (ev : input_event) (st : listener) :
  type ev <> EV_FF ->
  type ev <> EV_UINPUT \/ (code ev <> UI_FF_UPLOAD /\ code ev <> UI_FF_ERASE) ->
  handle_event kernel on_rumble clock ev st = (st, []).
Proof.
  intros Hff Hui. unfold handle_event.
  destruct (Z.eqb_spec (type ev) EV_FF) as [? | _]; [contradiction |].
  destruct (Z.eqb_spec (type ev) EV_UINPUT) as [Hu | _]; simpl.
  - destruct Hui as [? | [Hup Her]]; [contradiction |].
    destruct (Z.eqb_spec (code ev) UI_FF_UPLOAD); [contradiction |].
    destruct (Z.eqb_spec (code ev) UI_FF_ERASE); [contradiction |].
    destruct (type ev =? EV_LED); reflexivity.
  - destruct (type ev =? EV_LED); reflexivity.
Qed.

Lemma unhandled_event_ignored_led :
  (EV_LED <> EV_FF /\ EV_LED <> EV_UINPUT) /\
  handle_event sample_kernel true 0 {| type := EV_LED; code := 0; value := 1 |}
    two_running = (two_running, []).
Proof.
  assert (EV_LED <> EV_FF) as H1 by discriminate.
  assert (EV_LED <> EV_UINPUT) as H2 by discriminate.
  split; [split; assumption |].
  apply unhandled_event_ignored; [exact H1 | left; exact H2].
Defined.

(** ** The callback is only observed *)

Lemma remove_effects_callback (on_rumble : bool) (filter_fn : ActiveRumbleEffect -> bool)
    (active : list ActiveRumbleEffect) :
  fst (remove_effects on_rumble filter_fn active) =
  fst (remove_effects true filter_fn active).
Proof. now rewrite !remove_effects_kept. Qed.

Lemma handle_event_callback (kernel : uinput_kernel) (clock : time_point)
    (ev : input_event) (st : listener) :
  handle_event kernel false clock ev st =
  (fst (handle_event kernel true clock ev st), []).
Proof.
  unfold handle_event.
  destruct (_ && _); [reflexivity |].
  destruct (_ && _).
  { simpl. now rewrite remove_effects_silent, (remove_effects_callback false). }
  destruct (_ && _); [reflexivity |].
  destruct (type ev =? EV_FF); [| destruct (type ev =? EV_LED); reflexivity].
  destruct (negb _).
  - destruct (ff_effects st !! code ev); reflexivity.
  - simpl. now rewrite remove_effects_silent, (remove_effects_callback false).
Qed.

Lemma handle_events_callback (kernel : uinput_kernel)
    (events : list (time_point * input_event)) (st : listener) :
  handle_events kernel false events st =
  (fst (handle_events kernel true events st), []).
Proof.
  revert st. induction events as [| [clock ev] rest IH]; intros st; [reflexivity |].
  cbn [handle_events]. rewrite handle_event_callback. cbn [fst snd].
  rewrite IH. reflexivity.
Qed.

Lemma simulate_active_callback (now : time_point) (active : list ActiveRumbleEffect) :
  simulate_active false now active =
  (fun _ => []) <$> simulate_active true now active.
Proof.
  induction active as [| effect rest IH]; [reflexivity |].
  cbn [simulate_active]. unfold report_rumble.
  destruct (simulate_rumble effect now) as [p |]; [| reflexivity].
  cbn [mbind option_bind]. rewrite IH.
  destruct (_ || _); cbn [mbind option_bind snd];
    destruct (simulate_active true now rest); reflexivity.
Qed.

Lemma tick_callback (kernel : uinput_kernel)
    (events : list (time_point * input_event)) (now : time_point) (st : listener) :
  tick kernel false events now st =
  (fun r => (fst r, [])) <$> tick kernel true events now st.
Proof.
  unfold tick. rewrite handle_events_callback. cbn [fst snd].
  rewrite remove_effects_silent, (remove_effects_callback false).
  rewrite simulate_active_callback.
  destruct (simulate_active true now _); reflexivity.
Qed.

(** X11: the presence of the callback changes nothing but the calls: without
    it a run goes through the same listener states, is defined on the same
    inputs, and calls nothing. *)
Theorem run_without_callback (kernel : uinput_kernel)
    (ticks : list (list (time_point * input_event) * time_point)) (st : listener) :
  run kernel false ticks st =
  (fun r => (fst r, [])) <$> run kernel true ticks st.
Proof.
  revert st. induction ticks as [| [events now] rest IH]; intros st; [reflexivity |].
  cbn [run]. rewrite tick_callback.
  destruct (tick kernel true events now st) as [r |]; [| reflexivity].
  cbn [fmap option_fmap option_map mbind option_bind fst snd]. rewrite IH.
  destruct (run kernel true rest (fst r)); reflexivity.
Qed.

(** ** What every run keeps *)

Lemma handle_event_gains (kernel : uinput_kernel) (on_rumble : bool)
    (clock : time_point) (ev : input_event) (st : listener) :
  gains_in_range st -> gains_in_range (fst (handle_event kernel on_rumble clock ev st)).
Proof.
  intros [Hcur Hall]. split.
  - unfold handle_event.
    destruct (_ && _); [exact Hcur |].
    destruct (_ && _); [exact Hcur |].
    destruct (_ && _).
    { simpl. apply clamp_bounds. unfold MAX_GAIN. lia. }
    destruct (type ev =? EV_FF); [| destruct (type ev =? EV_LED); exact Hcur].
    destruct (negb _); [| exact Hcur].
    destruct (ff_effects st !! code ev); exact Hcur.
  - rewrite Forall_forall in *. intros effect Hin.
    apply handle_event_added in Hin as [Hold | (d & _ & _ & _ & _ & Hnew)].
    + now apply Hall.
    + rewrite Hnew, create_gain. exact Hcur.
Qed.

Lemma handle_events_gains (kernel : uinput_kernel) (on_rumble : bool)
    (events : list (time_point * input_event)) (st : listener) :
  gains_in_range st -> gains_in_range (fst (handle_events kernel on_rumble events st)).
Proof.
  revert st. induction events as [| [clock ev] rest IH]; intros st H; [exact H |].
  simpl. apply IH. now apply handle_event_gains.
Qed.

Lemma tick_gains (kernel : uinput_kernel) (on_rumble : bool)
    (events : list (time_point * input_event)) (now : time_point)
    (st st' : listener) (calls : list rumble_call) :
  tick kernel on_rumble events now st = Some (st', calls) ->
  gains_in_range st -> gains_in_range st'.
Proof.
  unfold tick. intros Htick Hg.
  apply (handle_events_gains kernel on_rumble events) in Hg as [Hcur Hall].
  destruct (simulate_active _ _ _); [| discriminate].
  injection Htick as <- _. split; [exact Hcur |]. simpl.
  apply (remove_effects_Forall _ on_rumble (has_ended now)) in Hall.
  eapply Forall_impl; [exact Hall |]. simpl. tauto.
Qed.

(** X12: started on the initial listener, the loop returns from every tick
    of every run, whatever the events, the kernel answers and the clock
    readings: the division by a zero length is never reached. In the state
    it ends in, the current gain and every captured gain lie in [0, 65535],
    and every running instance was built by [create_rumble_effect], still
    holds the initial (0, 0) as its last-reported pair, and has a descriptor
    under its id in the store. *)
Theorem run_safe (kernel : uinput_kernel) (on_rumble : bool)
    (ticks : list (list (time_point * input_event) * time_point)) :
  exists st calls,
    run kernel on_rumble ticks initial_listener = Some (st, calls) /\
    0 <= current_gain st <= 65535 /\
    Forall (fun effect =>
              constructed effect /\ 0 <= gain effect <= 65535 /\
              previous effect = (0, 0) /\
              is_Some (ff_effects st !! effect_id effect))
           (active_effects st).
Proof.
  assert (forall st0, listener_inv st0 -> gains_in_range st0 ->
            exists st calls, run kernel on_rumble ticks st0 = Some (st, calls) /\
                             listener_inv st /\ gains_in_range st) as Hrun.
  { induction ticks as [| [events now] rest IH]; intros st0 Hinv Hg.
    { simpl. eauto. }
    destruct (tick_inv kernel on_rumble events now st0 Hinv)
      as (st1 & calls1 & H1 & Hinv1 & _).
    assert (Hg1 := tick_gains _ _ _ _ _ _ _ H1 Hg).
    destruct (IH st1 Hinv1 Hg1) as (st2 & calls2 & H2 & Hinv2 & Hg2).
    simpl. rewrite H1. simpl. rewrite H2. simpl. eauto. }
  destruct (Hrun initial_listener initial_listener_inv) as (st & calls & H & Hinv & Hg).
  { split; [unfold initial_listener, MAX_GAIN; simpl; lia | constructor]. }
  exists st, calls. split; [exact H |].
  destruct Hg as [Hcur Hall]. unfold MAX_GAIN in *. split; [exact Hcur |].
  unfold listener_inv in Hinv. rewrite Forall_forall in *.
  intros effect Hin. specialize (Hinv effect Hin). specialize (Hall effect Hin).
  tauto.
Qed.

(** ** Silent ticks *)

Lemma simulate_rumble_zero_gain (effect : ActiveRumbleEffect) (now : time_point) :
  constructed effect -> gain effect = 0 -> now < end_point effect ->
  simulate_rumble effect now = Some (0, 0).
Proof.
  intros (id & g & eff & now0 & ->) Hgain Hend.
  destruct (simulate_rumble_defined_before_end id g eff now0 now Hend) as [p Hp].
  unfold simulate_rumble in *.
  destruct (_ || _); [reflexivity |].
  destruct (rumble_envelope _ now) as [q |]; [| discriminate].
  simpl. rewrite Hgain, !apply_gain_zero. reflexivity.
Qed.

Lemma simulate_active_silent (on_rumble : bool) (now : time_point)
    (active : list ActiveRumbleEffect) :
  Forall (silent_at now) active -> simulate_active on_rumble now active = Some [].
Proof.
  induction 1 as [| effect rest (Hc & Hprev & Hend & Hquiet) _ IH]; [reflexivity |].
  assert (simulate_rumble effect now = Some (0, 0)) as Hsim.
  { destruct Hquiet as [Hbefore | Hzero].
    - apply simulate_rumble_outside. unfold in_window. lia.
    - now apply simulate_rumble_zero_gain. }
  cbn [simulate_active]. unfold report_rumble. rewrite Hsim, Hprev.
  simpl. rewrite IH. reflexivity.
Qed.

(** X13: a tick without events at which every running instance is still
    before its end point and either has not reached its start point (a
    replay delay) or carries a captured gain of 0 calls nothing and leaves
    the listener as it was. *)
Theorem silent_tick (kernel : uinput_kernel) (on_rumble : bool)
    (now : time_point) (st : listener) :
  Forall (silent_at now) (active_effects st) ->
  tick kernel on_rumble [] now st = Some (st, []).
Proof.
  intros Hall. rewrite tick_no_events.
  rewrite remove_effects_none.
  - simpl. rewrite (simulate_active_silent _ _ _ Hall). simpl.
    rewrite set_active_same. reflexivity.
  - eapply Forall_impl; [exact Hall |]. simpl.
    intros effect (_ & _ & Hend & _). unfold has_ended. now apply Z.leb_gt.
Qed.

Lemma silent_tick_delayed :
  Forall (silent_at (ms 20)) (active_effects two_silent) /\
  tick sample_kernel true [] (ms 20) two_silent = Some (two_silent, []).
Proof.
  assert (Forall (silent_at (ms 20)) (active_effects two_silent)) as Hall.
  { constructor; [| constructor; [| constructor]].
    - split; [unfold constructed; eauto |].
      split; [reflexivity |]. split; [reflexivity | left; reflexivity].
    - split; [unfold constructed; eauto |].
      split; [reflexivity |]. split; [reflexivity | right; reflexivity]. }
  split; [exact Hall |].
  exact (silent_tick sample_kernel true (ms 20) two_silent Hall).
Defined.

(** ** The calls of the report loop *)

(** Which calls the report loop makes, as a set. *)
Lemma report_calls_members (now : time_point) (active : list ActiveRumbleEffect)
    (calls : list rumble_call) :
  simulate_active true now active = Some calls ->
  (forall strong weak,
     (strong, weak) ∈ calls <->
     exists effect, effect ∈ active /\
                    simulate_rumble effect now = Some (weak, strong) /\
                    previous effect <> (weak, strong)) /\
  (length calls <= length active)%nat.
Proof.
  revert calls. induction active as [| effect rest IH]; intros calls.
  { intros [= <-]. split; [| reflexivity].
    intros strong weak. split.
    - intros H. inversion H.
    - intros (e & H & _). inversion H. }
  cbn [simulate_active]. unfold report_rumble.
  destruct (simulate_rumble effect now) as [[w s] |] eqn:Hsim; [| discriminate].
  cbn [mbind option_bind fst snd].
  destruct (simulate_active true now rest) as [more |];
    [| destruct (_ || _); discriminate].
  destruct (IH more eq_refl) as [Hiff Hlen].
  destruct (previous effect) as [pw ps] eqn:Hprev. cbn [fst snd].
  destruct (Z.eqb_spec pw w) as [Hw | Hw]; destruct (Z.eqb_spec ps s) as [Hs | Hs];
    cbn [negb orb mbind option_bind snd app]; intros [= <-];
    (split; [| simpl; lia]); intros strong weak;
    rewrite ?elem_of_cons, Hiff; split.
  - intros (e & Hin & H). exists e. rewrite elem_of_cons. tauto.
  - intros (e & Hin & He & Hne). apply elem_of_cons in Hin as [-> | Hin]; [| eauto].
    rewrite Hsim in He. injection He as <- <-. rewrite Hprev in Hne. congruence.
  - intros [[= -> ->] | (e & Hin & H)].
    + exists effect. rewrite elem_of_cons, Hprev. repeat split; auto. congruence.
    + exists e. rewrite elem_of_cons. tauto.
  - intros (e & Hin & He & Hne). apply elem_of_cons in Hin as [-> | Hin]; [| eauto].
    rewrite Hsim in He. injection He as <- <-. left. reflexivity.
  - intros [[= -> ->] | (e & Hin & H)].
    + exists effect. rewrite elem_of_cons, Hprev. repeat split; auto. congruence.
    + exists e. rewrite elem_of_cons. tauto.
  - intros (e & Hin & He & Hne). apply elem_of_cons in Hin as [-> | Hin]; [| eauto].
    rewrite Hsim in He. injection He as <- <-. left. reflexivity.
  - intros [[= -> ->] | (e & Hin & H)].
    + exists effect. rewrite elem_of_cons, Hprev. repeat split; auto. congruence.
    + exists e. rewrite elem_of_cons. tauto.
  - intros (e & Hin & He & Hne). apply elem_of_cons in Hin as [-> | Hin]; [| eauto].
    rewrite Hsim in He. injection He as <- <-. left. reflexivity.
Qed.

(** The calls of the report loop as a list. *)
Lemma report_calls_list (now : time_point) (active : list ActiveRumbleEffect)
    (calls : list rumble_call) :
  simulate_active true now active = Some calls ->
  calls =
    omap (fun effect =>
            p ← simulate_rumble effect now;
            if decide (previous effect = p) then None else Some (snd p, fst p))
         active.
Proof.
  revert calls. induction active as [| effect rest IH]; intros calls.
  { intros [= <-]. reflexivity. }
  cbn [simulate_active omap list_omap]. unfold report_rumble.
  destruct (simulate_rumble effect now) as [[w s] |]; [| discriminate].
  cbn [mbind option_bind fst snd].
  destruct (simulate_active true now rest) as [more |];
    [| destruct (_ || _); discriminate].
  rewrite <- (IH more eq_refl).
  destruct (previous effect) as [pw ps]. cbn [fst snd].
  destruct (decide ((pw, ps) = (w, s))) as [[= -> ->] | Hne].
  - rewrite !Z.eqb_refl. cbn [negb orb mbind option_bind snd app]. now intros [= <-].
  - destruct (Z.eqb_spec pw w) as [-> |]; destruct (Z.eqb_spec ps s) as [-> |];
      cbn [negb orb mbind option_bind snd app];
      first [congruence | now intros [= <-]].
Qed.

(** X15: with the callback present, the calls of the report loop are, in the
    order of the active set, one call (strong, weak) for each running
    instance whose simulated pair (weak, strong) differs from the pair
    stored in the instance, and none for the others: exactly these calls,
    each once. *)
Theorem report_calls_exact (now : time_point) (active : list ActiveRumbleEffect)
    (calls : list rumble_call) :
  simulate_active true now active = Some calls ->
  calls =
    omap (fun effect =>
            p ← simulate_rumble effect now;
            if decide (previous effect = p) then None else Some (snd p, fst p))
         active /\
  (forall strong weak,
     (strong, weak) ∈ calls <->
     exists effect, effect ∈ active /\
                    simulate_rumble effect now = Some (weak, strong) /\
                    previous effect <> (weak, strong)) /\
  (length calls <= length active)%nat.
Proof.
  intros H. split.
  - now apply report_calls_list.
  - now apply report_calls_members.
Qed.

(** One instance at full gain and one at gain 0: one call. *)
Lemma report_calls_exact_one_of_two :
  let active := [create_rumble_effect 1 MAX_GAIN rumble_100_200 0;
                 create_rumble_effect 1 0 rumble_100_200 0] in
  simulate_active true (ms 20) active = Some [(200, 100)] /\
  omap (fun effect =>
          p ← simulate_rumble effect (ms 20);
          if decide (previous effect = p) then None else Some (snd p, fst p))
       active = [(200, 100)].
Proof.
  assert (simulate_active true (ms 20)
            [create_rumble_effect 1 MAX_GAIN rumble_100_200 0;
             create_rumble_effect 1 0 rumble_100_200 0] = Some [(200, 100)]) as H
    by reflexivity.
  split; [exact H |].
  destruct (report_calls_exact _ _ _ H) as [Heq _].
  symmetry. exact Heq.
Defined.


(** ** The store and the sweep over whole ticks *)

Lemma handle_events_store_grows (kernel : uinput_kernel) (on_rumble : bool)
    (events : list (time_point * input_event)) (st : listener) (id : Z) :
  is_Some (ff_effects st !! id) ->
  is_Some (ff_effects (fst (handle_events kernel on_rumble events st)) !! id).
Proof.
  revert st. induction events as [| [clock ev] rest IH]; intros st H; [exact H |].
  cbn [handle_events fst]. apply IH. now apply handle_event_store_grows.
Qed.

(** X17: no run of the loop ever takes a descriptor out of the store: an id
    that has a descriptor keeps one through every upload, erase, gain,
    activation and deactivation, and through every sweep. *)
Theorem store_never_shrinks (kernel : uinput_kernel) (on_rumble : bool)
    (ticks : list (list (time_point * input_event) * time_point))
    (st st' : listener) (calls : list rumble_call) (id : Z) :
  run kernel on_rumble ticks st = Some (st', calls) ->
  is_Some (ff_effects st !! id) ->
  is_Some (ff_effects st' !! id).
Proof.
  revert st calls. induction ticks as [| [events now] rest IH]; intros st calls.
  { intros [= <- _] H. exact H. }
  cbn [run]. unfold tick.
  destruct (simulate_active _ _ _) as [c |]; [| discriminate].
  cbn [mbind option_bind fst snd].
  destruct (run kernel on_rumble rest _) as [[st2 calls2] |] eqn:Hrest; [| discriminate].
  cbn [mbind option_bind fst snd]. intros [= <- _] H.
  apply (IH _ _ Hrest). cbn [set_active ff_effects].
  now apply handle_events_store_grows.
Qed.

Lemma store_never_shrinks_erase :
  let st := {| ff_effects := {[ 1 := rumble_100_200 ]};
               current_gain := MAX_GAIN; active_effects := [] |} in
  run sample_kernel true [([(0, erase_event 8)], ms 20)] st = Some (st, []) /\
  is_Some (ff_effects st !! 1).
Proof.
  assert (run sample_kernel true [([(0, erase_event 8)], ms 20)]
            {| ff_effects := {[ 1 := rumble_100_200 ]};
               current_gain := MAX_GAIN; active_effects := [] |} =
          Some ({| ff_effects := {[ 1 := rumble_100_200 ]};
                   current_gain := MAX_GAIN; active_effects := [] |}, [])) as H
    by reflexivity.
  split; [exact H |].
  apply (store_never_shrinks _ _ _ _ _ _ 1 H). eexists. reflexivity.
Defined.

(** X18: after a tick at [now] the active set is, in order and each once,
    the instances that were active once the events of the tick were handled
    and that end strictly after [now]; the store and the gain are those the
    events left. The calls of the tick are those of the events, then one
    (0, 0) for each instance with an end point at [now] or earlier (when the
    callback is present), then the calls of the report loop run on the
    instances that are left: an instance that ends exactly at [now] is
    removed and not simulated. *)
Theorem tick_sweeps_ended (kernel : uinput_kernel) (on_rumble : bool)
    (events : list (time_point * input_event)) (now : time_point)
    (st st' : listener) (calls : list rumble_call) :
  tick kernel on_rumble events now st = Some (st', calls) ->
  let after := handle_events kernel on_rumble events st in
  let ended := List.filter (fun effect => end_point effect <=? now)
                           (active_effects (fst after)) in
  active_effects st' =
    List.filter (fun effect => now <? end_point effect) (active_effects (fst after)) /\
  Forall (fun effect => now < end_point effect) (active_effects st') /\
  ff_effects st' = ff_effects (fst after) /\
  current_gain st' = current_gain (fst after) /\
  exists reported,
    simulate_active on_rumble now (active_effects st') = Some reported /\
    calls = snd after ++
            (if on_rumble then replicate (length ended) (0, 0) else []) ++
            reported.
Proof.
  unfold tick.
  set (after := handle_events kernel on_rumble events st).
  assert (fst (remove_effects on_rumble (has_ended now) (active_effects (fst after))) =
          List.filter (fun effect => now <? end_point effect)
                      (active_effects (fst after))) as Hkept.
  { rewrite remove_effects_kept. apply filter_ext.
    intros effect. unfold has_ended. symmetry. apply Z.ltb_antisym. }
  rewrite Hkept.
  destruct (simulate_active _ _ _) as [reported |] eqn:Hsim; [| discriminate].
  cbn [mbind option_bind]. intros [= <- <-].
  cbn [set_active active_effects ff_effects current_gain].
  split; [reflexivity |]. split; [| split; [reflexivity | split; [reflexivity |]]].
  - rewrite Forall_forall. intros effect Hin.
    apply list_elem_of_In, filter_In in Hin as [_ Hin]. now apply Z.ltb_lt.
  - exists reported. split; [exact Hsim |]. do 2 f_equal.
    destruct on_rumble.
    + apply remove_effects_calls.
    + apply remove_effects_silent.
Qed.

(** The two one-second instances at their end point: both are removed with
    a (0, 0) each, and neither is reported, although the simulator would
    still return (100, 200) for them at that time. *)
Lemma tick_sweeps_ended_at_end_point :
  tick sample_kernel true [] (ms 1000) two_running =
    Some (set_active two_running [], [(0, 0); (0, 0)]) /\
  active_effects (set_active two_running []) = [] /\
  simulate_rumble (create_rumble_effect 1 MAX_GAIN rumble_100_200 0) (ms 1000) =
    Some (100, 200).
Proof.
  assert (tick sample_kernel true [] (ms 1000) two_running =
          Some (set_active two_running [], [(0, 0); (0, 0)])) as H by reflexivity.
  split; [exact H |].
  destruct (tick_sweeps_ended _ _ _ _ _ _ _ H) as (Hactive & _).
  split; [exact Hactive | reflexivity].
Defined.

(** ** Device nodes *)

Lemma js_node_prefix (name : string) :
  String.prefix "js" name = true ->
  String.prefix "/dev/input/js" (String.append "/dev/input/" name) = true.
Proof. intros H. exact H. Qed.

Lemma child_nodes_fold (entries : list directory_entry) (result : list string) :
  exists children,
    fold_left
      (fun result entry =>
         if is_directory entry && String.prefix "js" (filename entry)
         then result ++ [String.append "/dev/input/" (filename entry)]
         else result)
      entries result = result ++ children /\
    children =
      map (fun entry => String.append "/dev/input/" (filename entry))
          (List.filter (fun entry => is_directory entry &&
                                     String.prefix "js" (filename entry)) entries).
Proof.
  revert result. induction entries as [| entry rest IH]; intros result.
  { exists []. split; [now rewrite app_nil_r | reflexivity]. }
  cbn [fold_left List.filter].
  destruct (is_directory entry && String.prefix "js" (filename entry)).
  - destruct (IH (result ++ [String.append "/dev/input/" (filename entry)]))
      as (children & Hfold & ->).
    eexists. split; [| reflexivity]. rewrite Hfold, <- app_assoc. reflexivity.
  - apply IH.
Qed.

(** X16: when the sysfs path can be iterated, the nodes of a joypad are its
    device node, first, when there is one, followed by one node
    "/dev/input/" + name for each DIRECTORY of the sysfs path whose name
    starts with "js", in the order of the iteration: every node after the
    device node starts with "/dev/input/js" and there are no more of them
    than entries. With no sysfs path only the device node is returned. When
    the iteration throws, no list is returned, device node or not: the
    exception leaves the function. *)
Theorem child_dev_nodes_shape (dev_path : option string)
    (entries : list directory_entry) :
  let own := match dev_path with Some path => [path] | None => [] end in
  let children :=
    map (fun entry => String.append "/dev/input/" (filename entry))
        (List.filter (fun entry => is_directory entry &&
                                   String.prefix "js" (filename entry)) entries) in
  get_child_dev_nodes dev_path (Some (listed entries)) = Some (own ++ children) /\
  Forall (fun node => String.prefix "/dev/input/js" node = true) children /\
  (length children <= length entries)%nat /\
  get_child_dev_nodes dev_path None = Some own /\
  get_child_dev_nodes dev_path (Some filesystem_error) = None.
Proof.
  intros own children. split; [| split; [| split; [| split]]].
  - unfold get_child_dev_nodes. fold own.
    destruct (child_nodes_fold entries own) as (c & Hfold & ->). now rewrite Hfold.
  - unfold children. clear. induction entries as [| entry rest IH]; [constructor |].
    cbn [List.filter].
    destruct (is_directory entry) eqn:Hd; cbn [andb]; [| exact IH].
    destruct (String.prefix "js" (filename entry)) eqn:Hp; [| exact IH].
    cbn [map]. constructor; [now apply js_node_prefix | exact IH].
  - unfold children. rewrite length_map.
    rewrite <- (filter_partition_length
                  (fun entry => is_directory entry &&
                                String.prefix "js" (filename entry)) entries).
    lia.
  - reflexivity.
  - reflexivity.
Qed.

Lemma child_dev_nodes_sample :
  get_child_dev_nodes (Some "/dev/input/event7"%string) (Some (listed sample_sysfs)) =
  Some ["/dev/input/event7"; "/dev/input/js0"]%string.
Proof. reflexivity. Qed.

(** ** Flat and rising sustain *)

(** X14: a constant or periodic descriptor with a non-negative level is
    reported flat in its sustain phase: both channels are the level scaled
    by the captured gain. *)
Theorem constant_level_flat
    (id g : Z) (eff : ff_effect) (now0 now : time_point) (level : Z) (env : ff_envelope) :
  u eff = FF_CONSTANT level env \/ u eff = FF_PERIODIC level env ->
  0 <= level <= 32767 -> 0 <= g <= MAX_GAIN ->
  let e := create_rumble_effect id g eff now0 in
  in_window e now -> phase_at e now = Sustain -> 0 < effect_length e ->
  simulate_rumble e now = Some (level * g / 65535, level * g / 65535).
Proof.
  intros Hu Hlv Hg e Hin Hphase Hlen.
  assert (gain e = g /\ start_weak e = level /\ end_weak e = level /\
          start_strong e = level /\ end_strong e = level) as (Hgain & Hsw & Hew & Hss & Hes).
  { unfold e, create_rumble_effect. destruct Hu as [-> | ->]; simpl;
      rewrite !u32_small by lia; repeat split. }
  clearbody e.
  rewrite simulate_rumble_inside by exact Hin.
  rewrite rumble_envelope_sustain by (exact Hphase || lia).
  rewrite Hsw, Hew, Hss, Hes, Hgain. unfold sustain_by_elapsed.
  rewrite !Z.sub_diag. change (u32 0) with 0. rewrite Z.mul_0_l.
  rewrite Z.quot_0_l by lia. rewrite !Z.add_0_r.
  rewrite !u32_small by lia. simpl.
  rewrite !apply_gain_no_wrap by (unfold is_u16; lia). reflexivity.
Qed.

Lemma constant_level_flat_periodic :
  let e := create_rumble_effect 1 32768 periodic_20000 0 in
  (in_window e (ms 500) /\ phase_at e (ms 500) = Sustain /\ 0 < effect_length e) /\
  simulate_rumble e (ms 500) = Some (10000, 10000).
Proof.
  assert (in_window (create_rumble_effect 1 32768 periodic_20000 0) (ms 500)) as Hin.
  { vm_compute. split; congruence. }
  split; [repeat split; apply Hin |].
  rewrite (constant_level_flat 1 32768 periodic_20000 0 (ms 500) 20000 no_envelope);
    try reflexivity; try exact Hin; try (right; reflexivity); unfold MAX_GAIN; lia.
Defined.

(** X19: a ramp between non-negative levels that goes UP (or stays) is
    interpolated without any wrap: in the sustain phase both channels carry,
    before gain, the start level plus the elapsed share of the rise, rounded
    down, a value between the two levels. *)
Theorem ascending_ramp_interpolates
    (id g : Z) (eff : ff_effect) (now0 now : time_point)
    (start_level end_level : Z) (env : ff_envelope) :
  u eff = FF_RAMP start_level end_level env ->
  0 <= start_level <= end_level -> end_level <= 32767 ->
  let e := create_rumble_effect id g eff now0 in
  in_window e now -> phase_at e now = Sustain -> 0 < effect_length e ->
  exists v,
    rumble_envelope e now = Some (v, v) /\
    v = start_level + (end_level - start_level) * elapsed_at e now / effect_length e /\
    start_level <= v <= end_level.
Proof.
  intros Hu Hlv Hmax e Hin Hphase Hlen.
  assert (Htimed := create_well_timed id g eff now0). fold e in Htimed.
  assert (Ht := elapsed_bounds e now Htimed Hin).
  assert (start_weak e = start_level /\ end_weak e = end_level /\
          start_strong e = start_level /\ end_strong e = end_level)
    as (Hsw & Hew & Hss & Hes).
  { unfold e, create_rumble_effect. rewrite Hu. simpl.
    rewrite !u32_small by lia. repeat split. }
  clearbody e.
  destruct (sustain_by_elapsed_rising start_level end_level
              (elapsed_at e now) (effect_length e)) as [Heq Hrange]; try lia.
  exists (sustain_by_elapsed start_level end_level (elapsed_at e now) (effect_length e)).
  split; [| split; [exact Heq | exact Hrange]].
  rewrite rumble_envelope_sustain by (exact Hphase || lia).
  rewrite Hsw, Hew, Hss, Hes. reflexivity.
Qed.

Lemma ascending_ramp_interpolates_quarter :
  let e := create_rumble_effect 1 MAX_GAIN ramp_up 0 in
  (in_window e (ms 250) /\ phase_at e (ms 250) = Sustain /\ 0 < effect_length e) /\
  rumble_envelope e (ms 250) = Some (250, 250).
Proof.
  assert (in_window (create_rumble_effect 1 MAX_GAIN ramp_up 0) (ms 250)) as Hin.
  { vm_compute. split; congruence. }
  split; [repeat split; apply Hin |].
  destruct (ascending_ramp_interpolates 1 MAX_GAIN ramp_up 0 (ms 250) 0 1000 no_envelope)
    as (v & Henv & Hv & _);
    [reflexivity | lia | lia | exact Hin | reflexivity | reflexivity |].
  rewrite Henv, Hv. reflexivity.
Defined.

(** X20: a descriptor of a type the [switch] has no case for (spring,
    friction, damper, inertia) is not refused: it becomes an instance with
    the timing of its replay fields, all magnitudes 0 and no envelope, whose
    simulation is (0, 0) at every time before its end point. *)
Theorem other_type_runs_at_zero
    (id g : Z) (eff : ff_effect) (now0 now : time_point) (ty : Z) :
  u eff = FF_OTHER ty ->
  let e := create_rumble_effect id g eff now0 in
  now < end_point e ->
  (start_weak e = 0 /\ start_strong e = 0 /\ end_weak e = 0 /\ end_strong e = 0 /\
   envelope e = no_envelope) /\
  simulate_rumble e now = Some (0, 0).
Proof.
  intros Hu e Hend.
  assert (start_weak e = 0 /\ start_strong e = 0 /\ end_weak e = 0 /\ end_strong e = 0 /\
          envelope e = no_envelope) as Hzero.
  { unfold e, create_rumble_effect. rewrite Hu. repeat split. }
  split; [exact Hzero |]. destruct Hzero as (Hsw & Hss & Hew & Hes & Henv).
  assert (Htimed := create_well_timed id g eff now0). fold e in Htimed.
  destruct (in_window_dec e now) as [Hin | Hout];
    [| now apply simulate_rumble_outside].
  assert (Ht := elapsed_bounds e now Htimed Hin).
  assert (Hl := time_left_bounds e now Htimed Hin).
  assert (Hlen := length_positive_before_end e now Htimed Hin Hend).
  assert (phase_at e now = Sustain) as Hphase.
  { unfold phase_at. rewrite Henv. simpl.
    destruct (Z.ltb_spec (elapsed_at e now) 0); [lia |].
    destruct (Z.ltb_spec (time_left_at e now) 0); [lia | reflexivity]. }
  clearbody e.
  rewrite simulate_rumble_inside by exact Hin.
  rewrite rumble_envelope_sustain by (exact Hphase || lia).
  rewrite Hsw, Hew, Hss, Hes. unfold sustain_by_elapsed.
  rewrite Z.sub_diag. change (u32 0) with 0. rewrite Z.mul_0_l.
  rewrite Z.quot_0_l by lia. simpl.
  rewrite apply_gain_unfold. reflexivity.
Qed.

Lemma other_type_runs_at_zero_spring :
  let e := create_rumble_effect 1 MAX_GAIN spring 0 in
  ms 20 < end_point e /\ simulate_rumble e (ms 20) = Some (0, 0).
Proof.
  assert (ms 20 < end_point (create_rumble_effect 1 MAX_GAIN spring 0)) as Hend
    by reflexivity.
  split; [exact Hend |].
  exact (proj2 (other_type_runs_at_zero 1 MAX_GAIN spring 0 (ms 20) 0x53 eq_refl Hend)).
Defined.
